(** * new_csmith_findings.py: report identifiers not yet mentioned in PLAN.md

    A shallow embedding of [plan/05-fix-research-ralph/scripts/new_csmith_findings.py]
    and the properties its specification states about it.

    Python strings are sequences of Unicode code points, so a string is a
    [list N]; sets of strings are [gset (list N)].  The script's only
    function, [main], reads a directory listing and a text file and prints to
    standard output; it is embedded in a small state-and-exception monad over
    a [World] holding exactly these three things. *)

From Stdlib Require Import NArith Ascii String.
From stdpp Require Import gmap sorting.

Local Open Scope N_scope.
#[local] Set Warnings "-clear-no-such-hyp".

(** ** Strings *)

Abbreviation str := (list N).

(** The code points of an ASCII literal of the source. *)
Definition str_of (s : string) : str := N_of_ascii <$> list_ascii_of_string s.

Definition NEWLINE : N := 10.
Definition HYPHEN : N := 45.

(** Python orders [str] values lexicographically by code point; a proper
    prefix comes first. *)
Fixpoint str_cmp (a b : str) : comparison :=
  match a, b with
  | [], [] => Eq
  | [], _ :: _ => Lt
  | _ :: _, [] => Gt
  | x :: a', y :: b' =>
      match x ?= y with
      | Eq => str_cmp a' b'
      | c => c
      end
  end.

Definition str_le (a b : str) : Prop := str_cmp a b ≠ Gt.
Definition str_lt (a b : str) : Prop := str_cmp a b = Lt.

Global Instance str_le_dec a b : Decision (str_le a b).
Proof. unfold str_le. apply _. Defined.

(** ** What the script leaves to the interpreter

    Two things the source does not fix: which code points [\d] accepts (the
    decimal digits of the interpreter's Unicode database, which always
    include exactly [0]..[9] below 128), and the order in which a [set] is
    iterated (any enumeration of its elements). *)

Record Python := {
  isdecimal : N → bool;
  isdecimal_ascii : ∀ c, c < 128 → isdecimal c = (48 <=? c) && (c <=? 57);
  set_iter : gset (list N) → list (list N);
  set_iter_perm : ∀ X, set_iter X ≡ₚ elements X
}.

(** First code point of each run of ten decimal digits (category Nd) in
    Unicode 15.0, the database of CPython 3.12. *)
Definition Nd_zeros : list N :=
  [0x30; 0x660; 0x6f0; 0x7c0; 0x966; 0x9e6; 0xa66; 0xae6; 0xb66; 0xbe6;
   0xc66; 0xce6; 0xd66; 0xde6; 0xe50; 0xed0; 0xf20; 0x1040; 0x1090; 0x17e0;
   0x1810; 0x1946; 0x19d0; 0x1a80; 0x1a90; 0x1b50; 0x1bb0; 0x1c40; 0x1c50;
   0xa620; 0xa8d0; 0xa900; 0xa9d0; 0xa9f0; 0xaa50; 0xabf0; 0xff10; 0x104a0;
   0x10d30; 0x11066; 0x110f0; 0x11136; 0x111d0; 0x112f0; 0x11450; 0x114d0;
   0x11650; 0x116c0; 0x11730; 0x118e0; 0x11950; 0x11c50; 0x11d50; 0x11da0;
   0x11f50; 0x16a60; 0x16ac0; 0x16b50; 0x1d7ce; 0x1d7d8; 0x1d7e2; 0x1d7ec;
   0x1d7f6; 0x1e140; 0x1e2f0; 0x1e4f0; 0x1e950; 0x1fbf0].

Definition unicode_isdecimal (c : N) : bool :=
  existsb (λ z, (z <=? c) && (c <? z + 10)) Nd_zeros.

(** ** Regular expressions of the script

    Both patterns are sequences of one-character items of fixed width (a
    literal character or [\d]), so matching at a position needs no
    backtracking. *)

Inductive atom :=
  | Chr (c : N)     (* a literal character *)
  | Dec.            (* \d *)

Definition chars (s : string) : list atom := Chr <$> str_of s.

(** [\d{8}-\d{6}] *)
Definition ID_RE : list atom := replicate 8 Dec ++ [Chr HYPHEN] ++ replicate 6 Dec.

(** [$] without MULTILINE: the end of the string, or just before a newline
    that ends the string. *)
Definition at_end (s : str) : bool :=
  match s with
  | [] => true
  | [c] => c =? NEWLINE
  | _ => false
  end.

Record Match := { group0 : str; group1 : str }.

(** ** Shell-style file name patterns

    [Path.glob] matches the whole name of an entry against the pattern,
    case-sensitively on POSIX. *)

Inductive gatom :=
  | GChr (c : N)    (* a literal character *)
  | GStar.          (* the wildcard, any run of characters *)

Fixpoint fnmatch (p : list gatom) (s : str) : bool :=
  match p with
  | [] => match s with [] => true | _ => false end
  | GChr c :: p' =>
      match s with
      | x :: s' => (x =? c) && fnmatch p' s'
      | [] => false
      end
  | GStar :: p' =>
      (fix star (s : str) : bool :=
         fnmatch p' s || match s with [] => false | _ :: s' => star s' end) s
  end.

(** ["report-*.md"] *)
Definition REPORT_GLOB : list gatom :=
  (GChr <$> str_of "report-") ++ [GStar] ++ (GChr <$> str_of ".md").

(** ** The world the script runs in

    [csmith_reports] is the listing of [base / "csmith-reports"] (the names
    of its entries, in the order the operating system returns them), or
    [None] when that directory does not exist.  [PLAN_md] is what is at the
    path of [PLAN.md], or [None] when nothing is.  [stdout] is the text
    printed so far, before it is encoded. *)

Inductive Exn :=
  | FileNotFoundError
  | IsADirectoryError
  | UnicodeDecodeError.

(** What exists at a path, seen through [read_text]: a file whose bytes
    decode, in the default encoding, to the text [content]; or something
    reading raises on, such as a file whose bytes are not valid in that
    encoding ([UnicodeDecodeError]) or a directory ([IsADirectoryError]). *)
Inductive file :=
  | Text (content : list N)
  | Unreadable (e : Exn).

Record World := {
  csmith_reports : option (list (list N));
  PLAN_md : option file;
  stdout : list N
}.

(** [PLAN.md] is absent or a file that [read_text] can read. *)
Definition readable (w : World) : Prop :=
  match PLAN_md w with
  | Some (Unreadable _) => False
  | _ => True
  end.

Inductive outcome (A : Type) :=
  | Returned (a : A)
  | Raised (e : Exn).
Arguments Returned {A} a.
Arguments Raised {A} e.

Definition IO (A : Type) : Type := World → outcome A * World.

Definition ret {A} (a : A) : IO A := λ w, (Returned a, w).

Definition bind {A B} (m : IO A) (k : A → IO B) : IO B :=
  λ w, match m w with
       | (Returned a, w') => k a w'
       | (Raised e, w') => (Raised e, w')
       end.

Declare Scope io_scope.
Delimit Scope io_scope with io.
Notation "x <- m ;; k" := (bind m (λ x, k))
  (at level 100, m at next level, right associativity) : io_scope.
Notation "m ;; k" := (bind m (λ _, k))
  (at level 100, right associativity) : io_scope.

(** The value an operation returned, [d] if it raised. *)
Definition returned {A} (r : outcome A * World) (d : A) : A :=
  match r.1 with
  | Returned a => a
  | Raised _ => d
  end.

(** [for x in xs: body] *)
Fixpoint for_each {A} (xs : list A) (body : A → IO unit) : IO unit :=
  match xs with
  | [] => ret tt
  | x :: xs' => (body x ;; for_each xs' body)%io
  end.

(** [reports_dir.glob(pattern)]: the names in the directory that match; a
    directory that does not exist yields nothing. *)
Definition glob (pattern : list gatom) : IO (list (list N)) :=
  λ w, (Returned (filter (λ name, fnmatch pattern name = true)
                    (default [] (csmith_reports w))), w).

(** [plan_file.exists()] *)
Definition exists_ : IO bool :=
  λ w, (Returned (bool_decide (is_Some (PLAN_md w))), w).

(** [plan_file.read_text()] *)
Definition read_text : IO (list N) :=
  λ w, match PLAN_md w with
       | Some (Text content) => (Returned content, w)
       | Some (Unreadable e) => (Raised e, w)
       | None => (Raised FileNotFoundError, w)
       end.

(** [print(s)] *)
Definition print (s : str) : IO unit :=
  λ w, (Returned tt,
        {| csmith_reports := csmith_reports w; PLAN_md := PLAN_md w;
           stdout := stdout w ++ s ++ [NEWLINE] |}).

Section Script.
Context (py : Python).

Definition atom_matches (a : atom) (c : N) : bool :=
  match a with
  | Chr x => c =? x
  | Dec => isdecimal py c
  end.

(** Match a sequence of items at the start of [s]: the matched text and
    what follows it. *)
Fixpoint match_seq (p : list atom) (s : str) : option (list N * list N) :=
  match p with
  | [] => Some ([], s)
  | a :: p' =>
      match s with
      | c :: s' =>
          if atom_matches a c
          then '(m, rest) ← match_seq p' s'; Some (c :: m, rest)
          else None
      | [] => None
      end
  end.

(** [report-(\d{8}-\d{6})\.md$] at the start of [s]. *)
Definition report_re_here (s : str) : option Match :=
  '(m1, r1) ← match_seq (chars "report-") s;
  '(g, r2) ← match_seq ID_RE r1;
  '(m3, r3) ← match_seq (chars ".md") r2;
  if at_end r3 then Some {| group0 := m1 ++ g ++ m3; group1 := g |} else None.

(** [re.search(r'report-(\d{8}-\d{6})\.md$', s)]: the match at the leftmost
    position that has one. *)
Fixpoint re_search (s : str) : option Match :=
  match report_re_here s with
  | Some m => Some m
  | None =>
      match s with
      | [] => None
      | _ :: s' => re_search s'
      end
  end.

(** [re.findall(r'\d{8}-\d{6}', s)]: scan from the left; after a match go on
    behind it, otherwise one character further.  [fuel] bounds the number of
    positions tried. *)
Fixpoint findall_scan (fuel : nat) (s : str) : list (list N) :=
  match fuel with
  | O => []
  | S fuel' =>
      match match_seq ID_RE s with
      | Some (m, rest) => m :: findall_scan fuel' rest
      | None =>
          match s with
          | [] => []
          | _ :: s' => findall_scan fuel' s'
          end
      end
  end.

Definition re_findall (s : str) : list (list N) :=
  findall_scan (S (length s)) s.

(** [sorted(X)] for a set [X] of strings. *)
Definition sorted (X : gset (list N)) : list (list N) :=
  merge_sort str_le (set_iter py X).

(** *** [main]

    The three commented parts of [main], in the order of the source. *)

(** Get all report IDs from filenames. *)
Definition add_report_id (report_ids : gset (list N)) (name : str) : gset (list N) :=
  match re_search name with
  | Some m => {[group1 m]} ∪ report_ids
  | None => report_ids
  end.

Definition locate_report_ids : IO (gset (list N)) :=
  (fs <- glob REPORT_GLOB ;;
   ret (foldl add_report_id ∅ fs))%io.

(** Get IDs already mentioned in PLAN.md. *)
Definition locate_mentioned_ids : IO (gset (list N)) :=
  (present <- exists_ ;;
   if present : bool
   then content <- read_text ;; ret (list_to_set (re_findall content))
   else ret ∅)%io.

(** Find new ones. *)
Definition report_new_findings (report_ids mentioned_ids : gset (list N)) : IO unit :=
  let new_ids := sorted (report_ids ∖ mentioned_ids) in
  match new_ids with
  | _ :: _ =>
      (print (str_of "New findings not in PLAN.md:") ;;
       for_each new_ids (λ id, print (str_of "  - [ ] " ++ id)))%io
  | [] => print (str_of "No new findings.")
  end.

Definition main : IO unit :=
  (report_ids <- locate_report_ids ;;
   mentioned_ids <- locate_mentioned_ids ;;
   report_new_findings report_ids mentioned_ids)%io.

(** ** Vocabulary of the specification *)

(** A report identifier: eight decimal digits, a hyphen, six decimal digits. *)
Definition is_id (s : str) : Prop :=
  ∃ d8 d6, s = d8 ++ [HYPHEN] ++ d6 ∧
    length d8 = 8%nat ∧ length d6 = 6%nat ∧
    Forall (λ c, isdecimal py c = true) d8 ∧
    Forall (λ c, isdecimal py c = true) d6.

(** [re.search(r'^\d{8}-\d{6}$', s)] finds a match. *)
Definition matches_anchored_id (s : str) : bool :=
  match match_seq ID_RE s with
  | Some (_, rest) => at_end rest
  | None => false
  end.

(** Every substring of [t] that has the shape of an identifier, wherever it
    occurs, overlapping ones included. *)
Fixpoint occurrences (t : str) : list (list N) :=
  match t with
  | [] => []
  | _ :: t' =>
      match match_seq ID_RE t with
      | Some (m, _) => m :: occurrences t'
      | None => occurrences t'
      end
  end.

(** The offsets at which [re.findall] returns its matches: the scan of
    [findall_scan], keeping where each match starts instead of its text. *)
Fixpoint starts_scan (fuel : nat) (pos : nat) (s : str) : list nat :=
  match fuel with
  | O => []
  | S fuel' =>
      match match_seq ID_RE s with
      | Some (m, rest) => pos :: starts_scan fuel' (pos + length m) rest
      | None =>
          match s with
          | [] => []
          | _ :: s' => starts_scan fuel' (S pos) s'
          end
      end
  end.

Definition match_starts (s : str) : list nat :=
  starts_scan (S (length s)) 0 s.

(** The collections are the values the first two parts of [main] compute. *)
Definition ReportCollection (w : World) : gset (list N) :=
  returned (locate_report_ids w) ∅.

Definition MentionedCollection (w : World) : gset (list N) :=
  returned (locate_mentioned_ids w) ∅.

Definition NewFindings (w : World) : list (list N) :=
  sorted (ReportCollection w ∖ MentionedCollection w).

End Script.

(** The text a run is expected to print for a given sequence of new
    findings. *)
Definition checklist_line (id : str) : str :=
  str_of "  - [ ] " ++ id ++ [NEWLINE].

Definition expected_output (ids : list (list N)) : str :=
  match ids with
  | [] => str_of "No new findings." ++ [NEWLINE]
  | _ :: _ =>
      str_of "New findings not in PLAN.md:" ++ [NEWLINE] ++
      concat (checklist_line <$> ids)
  end.

(** The world after [out] has been written to standard output. *)
Definition printed (w : World) (out : str) : World :=
  {| csmith_reports := csmith_reports w; PLAN_md := PLAN_md w;
     stdout := stdout w ++ out |}.

(** The two directories hold the same entries, whatever the order of the
    listing. *)
Definition same_entries (d1 d2 : option (list (list N))) : Prop :=
  match d1, d2 with
  | Some l1, Some l2 => l1 ≡ₚ l2
  | None, None => True
  | _, _ => False
  end.

(** ** A concrete interpreter *)

Lemma unicode_isdecimal_ascii c :
  c < 128 → unicode_isdecimal c = (48 <=? c) && (c <=? 57).
Proof.
  intros Hc.
  assert (Hall : forallb (λ n, Bool.eqb (unicode_isdecimal n)
                                 ((48 <=? n) && (n <=? 57)))
                   (N.of_nat <$> seq 0 128) = true) by (vm_compute; reflexivity).
  rewrite forallb_forall in Hall.
  apply Bool.eqb_prop, Hall, list_elem_of_In, list_elem_of_fmap.
  exists (N.to_nat c). split; [by rewrite N2Nat.id|].
  apply elem_of_seq. lia.
Qed.

(** CPython 3.12 with a set iterated in the order of [elements]. *)
Definition cpython : Python :=
  {| isdecimal := unicode_isdecimal;
     isdecimal_ascii := unicode_isdecimal_ascii;
     set_iter := elements;
     set_iter_perm := λ X, reflexivity (elements X) |}.
(** The same interpreter with sets iterated in the opposite order. *)
Definition cpython_reversed : Python :=
  {| isdecimal := unicode_isdecimal;
     isdecimal_ascii := unicode_isdecimal_ascii;
     set_iter := λ X, reverse (elements X);
     set_iter_perm := λ X, reverse_Permutation (elements X) |}.

(** ** Inputs of the scenarios *)

(** A world in which nothing has been printed yet and [PLAN.md], when it
    exists, holds the text [plan]. *)
Definition world (dir : option (list (list N))) (plan : option (list N)) : World :=
  {| csmith_reports := dir; PLAN_md := Text <$> plan; stdout := [] |}.

(** A world in which nothing has been printed yet and reading [PLAN.md]
    raises [e]: with [UnicodeDecodeError], a file such as the bytes of
    [20260205-225448] followed by [FF FE] under UTF-8. *)
Definition world_unreadable (dir : option (list (list N))) (e : Exn) : World :=
  {| csmith_reports := dir; PLAN_md := Some (Unreadable e); stdout := [] |}.

Definition id_20260205 : str := str_of "20260205-225448".
Definition id_20260301 : str := str_of "20260301-010101".

Definition two_reports : list (list N) :=
  [str_of "report-20260205-225448.md"; str_of "report-20260301-010101.md"].

(** The claim that an identifier is added exactly for the entries whose
    whole name is [report-<8digits>-<6digits>.md]. *)
Definition whole_name_claim (py : Python) (w : World) : Prop :=
  ∀ id, id ∈ ReportCollection py w ↔
    ∃ name, name ∈ default [] (csmith_reports w) ∧
      name = str_of "report-" ++ id ++ str_of ".md" ∧ is_id py id.

(** The claim that every identifier-shaped substring of the plan text is
    mentioned. *)
Definition every_occurrence_claim (py : Python) (w : World) : Prop :=
  ∀ t m, PLAN_md w = Some (Text t) → m ∈ occurrences py t →
    m ∈ MentionedCollection py w.

(** The claim that a run raises nothing, whatever the input files hold. *)
Definition never_raises_claim (py : Python) (w : World) : Prop :=
  ∃ w', main py w = (Returned tt, w').

(** The claim that without a reports directory a run raises nothing and
    prints exactly [No new findings.], whatever [PLAN.md] holds. *)
Definition missing_directory_claim (py : Python) (w : World) : Prop :=
  csmith_reports w = None →
  main py w = (Returned tt, printed w (str_of "No new findings." ++ [NEWLINE])).

(** ** Between two runs *)

(** The text of [PLAN.md], empty when there is none to read. *)
Definition plan_text (w : World) : str :=
  match PLAN_md w with
  | Some (Text t) => t
  | _ => []
  end.

(** The world after [extra] has been appended to [PLAN.md], the file being
    created when it did not exist; what cannot be read stays so. *)
Definition append_to_plan (w : World) (extra : str) : World :=
  {| csmith_reports := csmith_reports w;
     PLAN_md := match PLAN_md w with
                | Some (Unreadable e) => Some (Unreadable e)
                | _ => Some (Text (plan_text w ++ extra))
                end;
     stdout := stdout w |}.

(** The text a run of [main] adds to standard output. *)
Definition output_of (py : Python) (w : World) : str :=
  drop (length (stdout w)) (stdout (main py w).2).

(** ** Identifiers read as numbers *)

Definition ascii_digit (c : N) : Prop := 48 ≤ c ≤ 57.

(** An ASCII character that is not a digit. *)
Definition nondigit_ascii (c : N) : bool :=
  (c <? 128) && negb ((48 <=? c) && (c <=? 57)).

(** The number a string of ASCII digits denotes. *)
Definition decimal_value (s : str) : N :=
  foldl (λ acc c, 10 * acc + (c - 48)) 0 s.

(** [YYYYMMDD-HHMMSS] as the number [YYYYMMDDHHMMSS]. *)
Definition timestamp (id : str) : N :=
  decimal_value (take 8 id) * 1000000 + decimal_value (drop 9 id).

(** An identifier written with ASCII digits only. *)
Definition ascii_id (id : str) : Prop :=
  ∃ d8 d6, id = d8 ++ [HYPHEN] ++ d6 ∧
    length d8 = 8%nat ∧ length d6 = 6%nat ∧
    Forall ascii_digit d8 ∧ Forall ascii_digit d6.

(** ** Pieces of a scanned text *)

(** [g1 ++ m1 ++ g2 ++ m2 ++ ...]: the matches [ms], each behind its gap. *)
Fixpoint interleave (gaps ms : list (list N)) : str :=
  match gaps, ms with
  | g :: gaps', m :: ms' => g ++ m ++ interleave gaps' ms'
  | _, _ => []
  end.

(** ** The order on strings *)

Lemma str_cmp_refl a : str_cmp a a = Eq.
Proof. induction a as [|x a IH]; simpl; [done|]. by rewrite N.compare_refl. Qed.

Lemma str_cmp_eq a b : str_cmp a b = Eq → a = b.
Proof.
  revert b. induction a as [|x a IH]; intros [|y b]; simpl; try done.
  destruct (x ?= y) eqn:Hxy; try done.
  apply N.compare_eq in Hxy. intros ?%IH. congruence.
Qed.

Lemma str_cmp_opp a b : str_cmp b a = CompOpp (str_cmp a b).
Proof.
  revert b. induction a as [|x a IH]; intros [|y b]; simpl; try done.
  rewrite (N.compare_antisym x y).
  destruct (x ?= y); simpl; auto.
Qed.

Lemma str_cmp_lt_trans a b c :
  str_cmp a b = Lt → str_cmp b c = Lt → str_cmp a c = Lt.
Proof.
  revert b c. induction a as [|x a IH]; intros [|y b] [|z c]; simpl; try done.
  destruct (x ?= y) eqn:Hxy; try done.
  - apply N.compare_eq in Hxy as ->.
    destruct (y ?= z); try done. apply IH.
  - intros _. destruct (y ?= z) eqn:Hyz; try done.
    + apply N.compare_eq in Hyz as <-. by rewrite Hxy.
    + rewrite N.compare_lt_iff in Hxy, Hyz.
      assert (x < z) as ->%N.compare_lt_iff by lia. done.
Qed.

Lemma str_lt_le a b : str_lt a b ↔ str_le a b ∧ a ≠ b.
Proof.
  unfold str_lt, str_le. split.
  - intros H. split; [by rewrite H|].
    intros ->. by rewrite str_cmp_refl in H.
  - intros [Hle Hne]. destruct (str_cmp a b) eqn:Hc; try done.
    by apply str_cmp_eq in Hc.
Qed.

Global Instance str_le_total : Total str_le.
Proof.
  intros a b. unfold str_le. rewrite (str_cmp_opp a b).
  destruct (str_cmp a b); simpl; auto.
Qed.

Global Instance str_le_trans : Transitive str_le.
Proof.
  intros a b c. unfold str_le.
  destruct (str_cmp a b) eqn:Hab; [|  |done].
  - by apply str_cmp_eq in Hab as ->.
  - destruct (str_cmp b c) eqn:Hbc; [| |done].
    + apply str_cmp_eq in Hbc as <-. by rewrite Hab.
    + by rewrite (str_cmp_lt_trans a b c).
Qed.

Global Instance str_le_antisym : AntiSymm (=) str_le.
Proof.
  intros a b. unfold str_le. rewrite (str_cmp_opp a b).
  destruct (str_cmp a b) eqn:Hab; simpl; try done.
  by apply str_cmp_eq in Hab.
Qed.

Global Instance str_lt_trans : Transitive str_lt.
Proof. intros a b c. apply str_cmp_lt_trans. Qed.

(** A list that is ascending and free of duplicates is strictly ascending. *)
Lemma StronglySorted_le_lt (l : list (list N)) :
  StronglySorted str_le l → NoDup l → StronglySorted str_lt l.
Proof.
  induction 1 as [|x l Hl IH Hx]; intros Hnd; [constructor|].
  apply NoDup_cons in Hnd as [Hnotin Hnd].
  constructor; [by apply IH|].
  rewrite Forall_forall in Hx. apply Forall_forall. intros y Hy.
  apply str_lt_le. split; [by apply Hx|]. intros ->. done.
Qed.

Lemma StronglySorted_lt_le (l : list (list N)) :
  StronglySorted str_lt l → StronglySorted str_le l ∧ NoDup l.
Proof.
  induction 1 as [|x l Hl [IH1 IH2] Hx]; [split; constructor|].
  rewrite Forall_forall in Hx. split.
  - constructor; [done|]. apply Forall_forall. intros y Hy.
    by apply str_lt_le, Hx.
  - apply NoDup_cons. split; [|done].
    intros Hin. by destruct (proj1 (str_lt_le _ _) (Hx _ Hin)).
Qed.

(** ** Sorting a set *)

Section Sorted.
Context (py : Python).

Lemma sorted_perm X : sorted py X ≡ₚ elements X.
Proof. unfold sorted. by rewrite merge_sort_Permutation, set_iter_perm. Qed.

Lemma elem_of_sorted X id : id ∈ sorted py X ↔ id ∈ X.
Proof. by rewrite sorted_perm, elem_of_elements. Qed.

Lemma sorted_NoDup X : NoDup (sorted py X).
Proof. rewrite sorted_perm. apply NoDup_elements. Qed.

Lemma sorted_ascending X : StronglySorted str_lt (sorted py X).
Proof.
  apply StronglySorted_le_lt; [|apply sorted_NoDup].
  apply StronglySorted_merge_sort; apply _.
Qed.

(** [sorted X] is the only strictly ascending list with the elements of [X]. *)
Lemma sorted_unique X L :
  StronglySorted str_lt L → (∀ id, id ∈ L ↔ id ∈ X) → sorted py X = L.
Proof.
  intros [HL Hnd]%StronglySorted_lt_le Hel.
  apply (StronglySorted_unique str_le).
  - apply StronglySorted_merge_sort; apply _.
  - done.
  - apply NoDup_Permutation; [apply sorted_NoDup|done|].
    intros id. by rewrite elem_of_sorted, Hel.
Qed.

Lemma sorted_nil X : sorted py X = [] ↔ X = ∅.
Proof.
  split.
  - intros H. apply set_eq. intros id.
    rewrite <-elem_of_sorted, H. set_solver.
  - intros ->. apply sorted_unique; [constructor|]. set_solver.
Qed.

End Sorted.

(** ** Matching at a position *)

Section Matching.
Context (py : Python).

Lemma match_seq_spec p s m rest :
  match_seq py p s = Some (m, rest) ↔
  s = m ++ rest ∧ Forall2 (λ a c, atom_matches py a c = true) p m.
Proof.
  revert s m rest. induction p as [|a p IH]; intros s m rest; simpl.
  - split.
    + intros [= <- <-]. split; [done|constructor].
    + intros [-> Hm]. by inversion Hm.
  - destruct s as [|c s].
    { split; [done|]. intros [Hs Hm]. inversion Hm; subst. done. }
    destruct (atom_matches py a c) eqn:Hac.
    + destruct (match_seq py p s) as [[m' r']|] eqn:Hp; simpl.
      * apply IH in Hp as [-> Hm']. split.
        -- intros [= <- <-]. split; [done|by constructor].
        -- intros [Hs Hm]. inversion Hm as [|? c' ? m'' ? Hm2]; subst.
           simplify_eq/=. f_equal.
           assert (match_seq py p (m' ++ r') = Some (m'', rest)) as Heq
             by (apply IH; done).
           assert (match_seq py p (m' ++ r') = Some (m', r')) as Heq'
             by (apply IH; done).
           congruence.
      * split; [done|]. intros [Hs Hm].
        inversion Hm as [|? c' ? m'' ? Hm2]; subst. simplify_eq/=.
        assert (match_seq py p (m'' ++ rest) = Some (m'', rest)) as Heq
          by (apply IH; done).
        congruence.
    + split; [done|]. intros [Hs Hm].
      inversion Hm as [|? c' ? m'' Hc Hm2]; subst. simplify_eq/=. congruence.
Qed.

Lemma match_seq_chars lit s m rest :
  match_seq py (chars lit) s = Some (m, rest) ↔ m = str_of lit ∧ s = str_of lit ++ rest.
Proof.
  rewrite match_seq_spec. unfold chars.
  assert (∀ l m : list N,
    Forall2 (λ a c, atom_matches py a c = true) (Chr <$> l) m ↔ m = l) as Hlit.
  { clear. induction l as [|x l IH]; intros m; simpl.
    - split; [by inversion 1|intros ->; constructor].
    - split.
      + inversion 1 as [|? c ? m' Hc Hm]; subst. simpl in Hc.
        apply N.eqb_eq in Hc as ->. f_equal. by apply IH.
      + intros ->. constructor; [simpl; apply N.eqb_refl|by apply IH]. }
  rewrite Hlit. naive_solver.
Qed.

Lemma Forall2_replicate_Dec n (m : list N) :
  Forall2 (λ a c, atom_matches py a c = true) (replicate n Dec) m ↔
  length m = n ∧ Forall (λ c, isdecimal py c = true) m.
Proof.
  revert m. induction n as [|n IH]; intros m; simpl.
  - split.
    + inversion 1. split; [done|constructor].
    + intros [->%nil_length_inv _]. constructor.
  - split.
    + inversion 1 as [|? c ? m' Hc Hm]; subst. apply IH in Hm as [<- Hm].
      split; [done|by constructor].
    + destruct m as [|c m]; [naive_solver|].
      intros [[= Hlen] [Hc Hm]%Forall_cons]. constructor; [done|].
      by apply IH.
Qed.

Lemma Forall2_ID_RE (m : list N) :
  Forall2 (λ a c, atom_matches py a c = true) ID_RE m ↔ is_id py m.
Proof.
  unfold ID_RE, is_id. split.
  - intros (d8 & m' & Hd8 & Hm' & ->)%Forall2_app_inv_l.
    apply Forall2_app_inv_l in Hm' as (h & d6 & Hh & Hd6 & ->).
    inversion Hh as [|? c ? ? Hc Hnil]; subst. inversion Hnil; subst.
    simpl in Hc. apply N.eqb_eq in Hc as ->.
    apply Forall2_replicate_Dec in Hd8 as [? ?], Hd6 as [? ?].
    by exists d8, d6.
  - intros (d8 & d6 & -> & H8 & H6 & Hd8 & Hd6).
    apply Forall2_app; [by apply Forall2_replicate_Dec|].
    apply Forall2_app; [|by apply Forall2_replicate_Dec].
    constructor; [done|constructor].
Qed.

Lemma match_seq_ID_RE s m rest :
  match_seq py ID_RE s = Some (m, rest) ↔ s = m ++ rest ∧ is_id py m.
Proof. by rewrite match_seq_spec, Forall2_ID_RE. Qed.

Lemma is_id_length m : is_id py m → length m = 15%nat.
Proof.
  intros (d8 & d6 & -> & H8 & H6 & _). rewrite !length_app, H8, H6. done.
Qed.

Lemma is_id_matches_anchored m : is_id py m → matches_anchored_id py m = true.
Proof.
  intros Hm. unfold matches_anchored_id.
  assert (match_seq py ID_RE m = Some (m, [])) as ->; [|done].
  apply match_seq_ID_RE. by rewrite app_nil_r.
Qed.

End Matching.

(** ** File name patterns *)

Lemma fnmatch_GChr_app (l : list N) p s :
  fnmatch ((GChr <$> l) ++ p) s = true ↔ ∃ s', s = l ++ s' ∧ fnmatch p s' = true.
Proof.
  revert s. induction l as [|x l IH]; intros s; simpl.
  - naive_solver.
  - destruct s as [|c s]; [naive_solver|].
    rewrite andb_true_iff, N.eqb_eq, IH. naive_solver.
Qed.

Lemma fnmatch_GChr (l : list N) s : fnmatch (GChr <$> l) s = true ↔ s = l.
Proof.
  rewrite <-(app_nil_r (GChr <$> l)), fnmatch_GChr_app. split.
  - intros (s' & -> & Hs'). destruct s'; [by rewrite app_nil_r|done].
  - intros ->. exists []. by rewrite app_nil_r.
Qed.

Lemma fnmatch_GStar p s :
  fnmatch (GStar :: p) s = true ↔ ∃ x s', s = x ++ s' ∧ fnmatch p s' = true.
Proof.
  induction s as [|c s IH].
  - simpl. rewrite orb_false_r. split.
    + intros H. by exists [], [].
    + intros (x & s' & Hs & H). symmetry in Hs.
      apply app_eq_nil in Hs as [-> ->]. done.
  - change (fnmatch (GStar :: p) (c :: s))
      with (fnmatch p (c :: s) || fnmatch (GStar :: p) s).
    rewrite orb_true_iff, IH. split.
    + intros [H|(x & s' & -> & H)].
      * by exists [], (c :: s).
      * by exists (c :: x), s'.
    + intros (x & s' & Hs & H). destruct x as [|c' x]; simplify_eq/=.
      * by left.
      * right. by exists x, s'.
Qed.

(** A name matches ["report-*.md"] exactly when it starts with [report-]
    and what follows ends with [.md]. *)
Lemma fnmatch_REPORT_GLOB name :
  fnmatch REPORT_GLOB name = true ↔
  ∃ mid, name = str_of "report-" ++ mid ++ str_of ".md".
Proof.
  unfold REPORT_GLOB. rewrite fnmatch_GChr_app.
  setoid_rewrite fnmatch_GStar. setoid_rewrite fnmatch_GChr.
  naive_solver.
Qed.

(** ** Searching a file name for the report pattern *)

Section Search.
Context (py : Python).

Lemma report_re_here_spec s m :
  report_re_here py s = Some m ↔
  ∃ g tail, is_id py g ∧ at_end tail = true ∧
    s = str_of "report-" ++ g ++ str_of ".md" ++ tail ∧
    m = {| group0 := str_of "report-" ++ g ++ str_of ".md"; group1 := g |}.
Proof.
  unfold report_re_here. split.
  - intros H.
    destruct (match_seq py (chars "report-") s) as [[m1 r1]|] eqn:H1; [|done].
    apply match_seq_chars in H1 as [-> ->]. cbn [mbind option_bind] in H.
    destruct (match_seq py ID_RE r1) as [[g r2]|] eqn:H2; [|done].
    apply match_seq_ID_RE in H2 as [-> Hg]. cbn [mbind option_bind] in H.
    destruct (match_seq py (chars ".md") r2) as [[m3 r3]|] eqn:H3; [|done].
    apply match_seq_chars in H3 as [-> ->]. cbn [mbind option_bind] in H.
    destruct (at_end r3) eqn:Hend; [|done]. injection H as <-.
    by exists g, r3.
  - intros (g & tail & Hg & Hend & -> & ->).
    assert (match_seq py (chars "report-")
              (str_of "report-" ++ g ++ str_of ".md" ++ tail)
            = Some (str_of "report-", g ++ str_of ".md" ++ tail)) as ->
      by by apply match_seq_chars.
    cbn [mbind option_bind].
    assert (match_seq py ID_RE (g ++ str_of ".md" ++ tail)
            = Some (g, str_of ".md" ++ tail)) as ->
      by by apply match_seq_ID_RE.
    cbn [mbind option_bind].
    assert (match_seq py (chars ".md") (str_of ".md" ++ tail)
            = Some (str_of ".md", tail)) as ->
      by by apply match_seq_chars.
    cbn [mbind option_bind]. by rewrite Hend.
Qed.

Lemma re_search_unfold s :
  re_search py s =
  match report_re_here py s with
  | Some m => Some m
  | None => match s with [] => None | _ :: s' => re_search py s' end
  end.
Proof. by destruct s. Qed.

Lemma re_search_Some s m :
  re_search py s = Some m → ∃ pre rest, s = pre ++ rest ∧ report_re_here py rest = Some m.
Proof.
  induction s as [|c s IH]; rewrite re_search_unfold.
  - destruct (report_re_here py []) eqn:H; [|done].
    intros [= <-]. by exists [], [].
  - destruct (report_re_here py (c :: s)) eqn:H.
    + intros [= <-]. by exists [], (c :: s).
    + intros (pre & rest & -> & Hm)%IH. by exists (c :: pre), rest.
Qed.

Lemma re_search_is_Some pre rest m :
  report_re_here py rest = Some m → is_Some (re_search py (pre ++ rest)).
Proof.
  intros Hm. induction pre as [|c pre IH].
  - change ([] ++ rest) with rest. by rewrite re_search_unfold, Hm.
  - rewrite re_search_unfold.
    by destruct (report_re_here py ((c :: pre) ++ rest)).
Qed.

(** In a name that ends with [.md] the pattern can only match the last 25
    characters, so the identifier found is the one in front of that final
    [.md]. *)
Lemma re_search_md name id :
  str_of ".md" `suffix_of` name →
  group1 <$> re_search py name = Some id ↔
  is_id py id ∧ (str_of "report-" ++ id ++ str_of ".md") `suffix_of` name.
Proof.
  intros [stem Hname].
  assert (∀ m, re_search py name = Some m →
            is_id py (group1 m) ∧
            (str_of "report-" ++ group1 m ++ str_of ".md") `suffix_of` name) as Hfwd.
  { intros m (pre & rest & Hs & Hm)%re_search_Some.
    apply report_re_here_spec in Hm as (g & tail & Hg & Hend & -> & ->).
    simpl. split; [done|].
    destruct tail as [|c [|??]]; [| |done].
    - exists pre. by rewrite app_nil_r in Hs.
    - simpl in Hend. apply N.eqb_eq in Hend as ->.
      assert (last name = Some NEWLINE) as Hl1.
      { rewrite Hs, !(assoc_L (++)). apply last_snoc. }
      assert (last name = Some 100) as Hl2.
      { rewrite Hname.
        change (str_of ".md") with ([46; 109] ++ [100]).
        rewrite (assoc_L (++)). apply last_snoc. }
      rewrite Hl1 in Hl2. done. }
  split.
  - destruct (re_search py name) as [m|] eqn:Hm; [|done].
    intros [= <-]. by apply Hfwd.
  - intros [Hid [pre Hpre]].
    destruct (re_search_is_Some pre (str_of "report-" ++ id ++ str_of ".md")
                {| group0 := str_of "report-" ++ id ++ str_of ".md"; group1 := id |})
      as [m Hm].
    { apply report_re_here_spec. exists id, []. by rewrite app_nil_r. }
    rewrite <-Hpre in Hm. rewrite Hm. simpl. f_equal.
    destruct (Hfwd m Hm) as [Hid' [pre' Hpre']].
    rewrite Hpre in Hpre'.
    apply app_inj_2 in Hpre' as [_ Heq].
    + apply app_inv_head in Heq. by apply app_inv_tail in Heq.
    + rewrite !length_app, (is_id_length py id), (is_id_length py (group1 m)); done.
Qed.

End Search.

(** ** Scanning a text for identifiers *)

Section Findall.
Context (py : Python).

Lemma match_seq_ID_RE_shorter s m rest :
  match_seq py ID_RE s = Some (m, rest) → (length rest < length s)%nat.
Proof.
  intros [-> Hm%is_id_length]%match_seq_ID_RE. rewrite length_app. lia.
Qed.

Lemma findall_scan_fuel n1 n2 s :
  (length s < n1)%nat → (length s < n2)%nat →
  findall_scan py n1 s = findall_scan py n2 s.
Proof.
  revert n2 s. induction n1 as [|n1 IH]; intros [|n2] s H1 H2; try lia.
  cbn [findall_scan]. destruct (match_seq py ID_RE s) as [[m rest]|] eqn:Hm.
  - apply match_seq_ID_RE_shorter in Hm. f_equal. apply IH; lia.
  - destruct s as [|c s]; [done|]. cbn [length] in *. apply IH; lia.
Qed.

(** The fuel [re_findall] starts with is enough: the scan obeys the
    equation of an unbounded left-to-right scan. *)
Lemma re_findall_unfold s :
  re_findall py s =
  match match_seq py ID_RE s with
  | Some (m, rest) => m :: re_findall py rest
  | None => match s with [] => [] | _ :: s' => re_findall py s' end
  end.
Proof.
  unfold re_findall at 1. cbn [findall_scan].
  destruct (match_seq py ID_RE s) as [[m rest]|] eqn:Hm.
  - apply match_seq_ID_RE_shorter in Hm. f_equal.
    apply findall_scan_fuel; lia.
  - by destruct s.
Qed.

Lemma findall_scan_sound n t m :
  m ∈ findall_scan py n t → ∃ pre post, t = pre ++ m ++ post ∧ is_id py m.
Proof.
  revert t. induction n as [|n IH]; intros t; cbn [findall_scan]; [by inversion 1|].
  destruct (match_seq py ID_RE t) as [[m0 rest]|] eqn:Hm.
  - apply match_seq_ID_RE in Hm as [-> Hm0].
    intros [->|(pre & post & -> & Hid)%IH]%elem_of_cons.
    + by exists [], rest.
    + exists (m0 ++ pre), post. by rewrite <-(assoc_L (++)).
  - destruct t as [|c t]; [by inversion 1|].
    intros (pre & post & -> & Hid)%IH. by exists (c :: pre), post.
Qed.

(** Everything [re.findall] returns is an identifier that occurs in the
    text. *)
Lemma re_findall_sound t m :
  m ∈ re_findall py t → ∃ pre post, t = pre ++ m ++ post ∧ is_id py m.
Proof. apply findall_scan_sound. Qed.

(** An occurrence is found when every occurrence that starts before it also
    ends before it. *)
Lemma re_findall_complete t pre m post :
  t = pre ++ m ++ post → is_id py m →
  (∀ pre' m' post', t = pre' ++ m' ++ post' → is_id py m' →
     (length pre' < length pre)%nat → (length pre' + 15 ≤ length pre)%nat) →
  m ∈ re_findall py t.
Proof.
  remember (length t) as n eqn:Hn. revert t pre Hn.
  induction n as [n IH] using lt_wf_ind. intros t pre Hn Ht Hid Hfree.
  rewrite re_findall_unfold.
  destruct (match_seq py ID_RE t) as [[m0 rest]|] eqn:Hm0.
  - apply match_seq_ID_RE in Hm0 as [Ht0 Hid0].
    pose proof (is_id_length py m0 Hid0) as Hl0.
    destruct pre as [|c pre].
    + rewrite Ht in Ht0. simpl in Ht0.
      apply app_inj_1 in Ht0 as [-> _]; [left|].
      by rewrite !(is_id_length py).
    + right.
      pose proof (Hfree [] m0 rest Ht0 Hid0 ltac:(simpl; lia)) as Hlen.
      simpl in Hlen.
      assert (∃ pre2, c :: pre = m0 ++ pre2) as [pre2 Hpre2].
      { exists (drop 15 (c :: pre)).
        rewrite <-(take_drop 15 (c :: pre)) at 1. f_equal.
        assert (take 15 t = m0) as <-.
        { rewrite Ht0, <-Hl0. apply take_app_length. }
        rewrite Ht, take_app_le; [done|]. simpl. lia. }
      assert (length (c :: pre) = 15 + length pre2)%nat as Hlp
        by (rewrite Hpre2, length_app; lia).
      assert (rest = pre2 ++ m ++ post) as Hrest.
      { rewrite Hpre2, Ht0, <-(assoc_L (++)) in Ht. by apply app_inv_head in Ht. }
      eapply (IH (length rest)); [|done|done|done|].
      * subst n. rewrite Ht0, length_app. lia.
      * intros pre' m' post' Hocc Hid' Hlt.
        pose proof (Hfree (m0 ++ pre') m' post') as Hf.
        rewrite length_app, Hl0, Hlp in Hf.
        enough (15 + length pre' + 15 ≤ 15 + length pre2)%nat by lia.
        apply Hf; [|done|lia].
        by rewrite Ht0, Hocc, <-(assoc_L (++)).
  - destruct pre as [|c pre].
    { assert (match_seq py ID_RE t = Some (m, post)) by by apply match_seq_ID_RE.
      congruence. }
    destruct t as [|c' t]; [done|]. injection Ht as -> Ht.
    eapply (IH (length t)); [|done|done|done|].
    + subst n. simpl. lia.
    + intros pre' m' post' Hocc Hid' Hlt.
      pose proof (Hfree (c :: pre') m' post') as Hf. simpl in Hf.
      enough (S (length pre' + 15) ≤ S (length pre))%nat by lia.
      apply Hf; [by rewrite Hocc|done|lia].
Qed.

(** A text with an occurrence of an identifier makes the scan return
    something. *)
Lemma re_findall_nonempty t pre m post :
  t = pre ++ m ++ post → is_id py m → re_findall py t ≠ [].
Proof.
  revert t. induction pre as [|c pre IH]; intros t -> Hid;
    rewrite re_findall_unfold.
  - assert (match_seq py ID_RE ([] ++ m ++ post) = Some (m, post)) as ->
      by by apply match_seq_ID_RE.
    done.
  - destruct (match_seq py ID_RE ((c :: pre) ++ m ++ post)) as [[m0 rest]|];
      [done|].
    by apply IH.
Qed.

(** A text without any occurrence contributes nothing. *)
Lemma re_findall_no_match t :
  (∀ pre m post, t = pre ++ m ++ post → ¬ is_id py m) → re_findall py t = [].
Proof.
  intros Hno. destruct (re_findall py t) as [|m l] eqn:Hl; [done|].
  destruct (re_findall_sound t m) as (pre & post & Ht & Hid).
  { rewrite Hl. by left. }
  by destruct (Hno pre m post).
Qed.

End Findall.

Section Occurrences.
Context (py : Python).

Lemma elem_of_occurrences t m :
  m ∈ occurrences py t ↔ ∃ pre post, t = pre ++ m ++ post ∧ is_id py m.
Proof.
  induction t as [|c t IH].
  - split; [by inversion 1|].
    intros (pre & post & Ht & Hid%is_id_length). symmetry in Ht.
    apply app_eq_nil in Ht as [_ [-> _]%app_eq_nil]. done.
  - cbn [occurrences].
    assert (m ∈ occurrences py t ↔
            ∃ pre post, c :: t = (c :: pre) ++ m ++ post ∧ is_id py m) as IH'.
    { rewrite IH. naive_solver. }
    destruct (match_seq py ID_RE (c :: t)) as [[m0 rest]|] eqn:Hm0.
    + apply match_seq_ID_RE in Hm0 as [Ht0 Hid0].
      rewrite elem_of_cons, IH'. split.
      * intros [->|(pre & post & Ht & Hid)]; [by exists [], rest|].
        by exists (c :: pre), post.
      * intros ([|c' pre] & post & Ht & Hid).
        -- left. rewrite Ht0 in Ht. simpl in Ht.
           apply app_inj_1 in Ht as [? ?]; [done|].
           by rewrite !(is_id_length py).
        -- right. simpl in Ht. injection Ht as <- Ht. exists pre, post.
           by rewrite Ht.
    + rewrite IH'. split.
      { intros (pre & post & Ht & Hid). by exists (c :: pre), post. }
      intros ([|c' pre] & post & Ht & Hid).
      * assert (match_seq py ID_RE (c :: t) = Some (m, post))
          by by apply match_seq_ID_RE.
        congruence.
      * simpl in Ht. injection Ht as <- Ht. exists pre, post. by rewrite Ht.
Qed.

Lemma re_findall_occurrences t m : m ∈ re_findall py t → m ∈ occurrences py t.
Proof. rewrite elem_of_occurrences. apply re_findall_sound. Qed.

End Occurrences.

(** ** Running the script *)

Lemma for_each_print (prefix : list N) ids w :
  for_each ids (λ id, print (prefix ++ id)) w =
  (Returned tt, printed w (concat ((λ id, prefix ++ id ++ [NEWLINE]) <$> ids))).
Proof.
  revert w. induction ids as [|id ids IH]; intros w.
  - unfold printed. simpl. rewrite app_nil_r. by destruct w.
  - cbn [for_each]. unfold bind. cbn [print]. rewrite IH.
    unfold printed. cbn [csmith_reports PLAN_md stdout fmap list_fmap concat].
    by rewrite <-!(assoc_L (++)).
Qed.

Section Run.
Context (py : Python).

Lemma locate_report_ids_run w :
  locate_report_ids py w = (Returned (ReportCollection py w), w).
Proof. done. Qed.

Lemma locate_mentioned_ids_run w :
  readable w →
  locate_mentioned_ids py w = (Returned (MentionedCollection py w), w).
Proof.
  unfold readable, MentionedCollection, locate_mentioned_ids, bind, exists_,
    read_text, returned.
  destruct (PLAN_md w) as [[content|e]|] eqn:E; simpl; by rewrite ?E.
Qed.

(** Reading a [PLAN.md] that exists and cannot be read ends the step, and
    with it the run, by the exception of [read_text]. *)
Lemma locate_mentioned_ids_raises w e :
  PLAN_md w = Some (Unreadable e) →
  locate_mentioned_ids py w = (Raised e, w).
Proof.
  intros E. unfold locate_mentioned_ids, bind, exists_, read_text.
  rewrite E. simpl. by rewrite E.
Qed.

Lemma MentionedCollection_eq w :
  MentionedCollection py w =
  match PLAN_md w with
  | Some (Text content) => list_to_set (re_findall py content)
  | _ => ∅
  end.
Proof.
  unfold MentionedCollection, locate_mentioned_ids, bind, exists_, read_text, returned.
  destruct (PLAN_md w) as [[content|e]|] eqn:E; simpl; by rewrite ?E.
Qed.

Lemma ReportCollection_eq w :
  ReportCollection py w =
  foldl (add_report_id py) ∅
    (filter (λ name, fnmatch REPORT_GLOB name = true) (default [] (csmith_reports w))).
Proof. done. Qed.

Lemma report_new_findings_run R M w :
  report_new_findings py R M w =
  (Returned tt, printed w (expected_output (sorted py (R ∖ M)))).
Proof.
  unfold report_new_findings, expected_output.
  destruct (sorted py (R ∖ M)) as [|id ids]; [done|].
  unfold bind. cbn [print]. rewrite for_each_print.
  unfold printed, checklist_line. cbn [csmith_reports PLAN_md stdout].
  by rewrite <-!(assoc_L (++)).
Qed.

(** [main] always returns, having printed the expected text for
    [NewFindings] and nothing else. *)
Lemma main_run w :
  readable w →
  main py w = (Returned tt, printed w (expected_output (NewFindings py w))).
Proof.
  intros Hr. unfold main, bind.
  rewrite locate_report_ids_run, locate_mentioned_ids_run by done.
  apply report_new_findings_run.
Qed.

Lemma main_raises w e :
  PLAN_md w = Some (Unreadable e) → main py w = (Raised e, w).
Proof.
  intros E. unfold main, bind.
  by rewrite locate_report_ids_run, (locate_mentioned_ids_raises w e E).
Qed.

Lemma elem_of_foldl_add_report_id X fs id :
  id ∈ foldl (add_report_id py) X fs ↔
  id ∈ X ∨ ∃ name, name ∈ fs ∧ group1 <$> re_search py name = Some id.
Proof.
  revert X. induction fs as [|f fs IH]; intros X; cbn [foldl].
  - split; [by left|]. intros [?|(name & Hin & _)]; [done|by inversion Hin].
  - rewrite IH. unfold add_report_id.
    setoid_rewrite elem_of_cons.
    destruct (re_search py f) as [m|] eqn:Hm.
    + rewrite elem_of_union, elem_of_singleton. split.
      * intros [[->|?]|(name & ? & ?)]; [right; exists f|by left|right; exists name];
          rewrite ?Hm; naive_solver.
      * intros [?|(name & [->|?] & Hid)]; [by left; right| |right; by exists name].
        rewrite Hm in Hid. injection Hid as <-. by left; left.
    + split; [naive_solver|].
      intros [?|(name & [->|?] & Hid)]; [by left| |right; by exists name].
      by rewrite Hm in Hid.
Qed.

(** What ends up in [report_ids]: the identifier in front of the final
    [.md] of every listed name that starts with [report-] and ends with
    [report-<id>.md]. *)
Lemma elem_of_ReportCollection w id :
  id ∈ ReportCollection py w ↔
  ∃ name, name ∈ default [] (csmith_reports w) ∧
    str_of "report-" `prefix_of` name ∧
    (str_of "report-" ++ id ++ str_of ".md") `suffix_of` name ∧
    is_id py id.
Proof.
  rewrite ReportCollection_eq, elem_of_foldl_add_report_id.
  split.
  - intros [?|(name & [Hglob Hin]%list_elem_of_filter & Hid)]; [set_solver|].
    apply fnmatch_REPORT_GLOB in Hglob as [mid Hmid].
    apply re_search_md in Hid as [Hid Hsuf].
    + exists name. split_and!; [done| |done|done].
      exists (mid ++ str_of ".md"). done.
    + exists (str_of "report-" ++ mid). by rewrite <-(assoc_L (++)).
  - intros (name & Hin & [rest Hpre] & Hsuf & Hid). right. exists name.
    assert (str_of ".md" `suffix_of` name) as Hmd.
    { destruct Hsuf as [pre ->]. exists (pre ++ str_of "report-" ++ id).
      by rewrite <-!(assoc_L (++)). }
    split; [|by apply re_search_md].
    apply list_elem_of_filter. split; [|done].
    apply fnmatch_REPORT_GLOB.
    destruct Hmd as [stem Hstem].
    assert (length name ≥ 25)%nat as Hlen.
    { destruct Hsuf as [pre ->]. rewrite !length_app, (is_id_length py id Hid).
      simpl. lia. }
    exists (drop 7 stem).
    assert (take 7 stem = str_of "report-") as <-.
    { assert (take 7 name = str_of "report-") as <- by by rewrite Hpre.
      rewrite Hstem, take_app_le; [done|].
      rewrite Hstem, length_app in Hlen. simpl in Hlen. lia. }
    by rewrite (assoc_L (++)), take_drop.
Qed.

End Run.

(** ** Independence from what the interpreter leaves open *)

Section Interpreters.
Context (py1 py2 : Python).
Hypothesis same_digits : ∀ c, isdecimal py1 c = isdecimal py2 c.

Lemma atom_matches_ext a c : atom_matches py1 a c = atom_matches py2 a c.
Proof. destruct a; [done|apply same_digits]. Qed.

Lemma match_seq_ext p s : match_seq py1 p s = match_seq py2 p s.
Proof.
  revert s. induction p as [|a p IH]; intros [|c s]; cbn [match_seq]; try done.
  by rewrite IH, atom_matches_ext.
Qed.

Lemma findall_scan_ext n s : findall_scan py1 n s = findall_scan py2 n s.
Proof.
  revert s. induction n as [|n IH]; intros s; cbn [findall_scan]; [done|].
  rewrite match_seq_ext. destruct (match_seq py2 ID_RE s) as [[m rest]|].
  - by rewrite IH.
  - destruct s; [done|apply IH].
Qed.

Lemma is_id_ext id : is_id py1 id ↔ is_id py2 id.
Proof.
  rewrite <-!Forall2_ID_RE.
  split; intros H; (eapply Forall2_impl; [exact H|]); intros a c; simpl.
  - by rewrite atom_matches_ext.
  - by rewrite <-atom_matches_ext.
Qed.

(** Same entries, same digits: the same report identifiers, whatever the
    order of the listing. *)
Lemma ReportCollection_ext w1 w2 :
  same_entries (csmith_reports w1) (csmith_reports w2) →
  ReportCollection py1 w1 = ReportCollection py2 w2.
Proof.
  intros Hsame. apply set_eq. intros id. rewrite !elem_of_ReportCollection.
  assert (∀ name, name ∈ default [] (csmith_reports w1) ↔
                  name ∈ default [] (csmith_reports w2)) as Hin.
  { intros name. destruct (csmith_reports w1), (csmith_reports w2);
      simpl in *; try done. by rewrite Hsame. }
  setoid_rewrite Hin. by setoid_rewrite is_id_ext.
Qed.

Lemma MentionedCollection_ext w1 w2 :
  PLAN_md w1 = PLAN_md w2 →
  MentionedCollection py1 w1 = MentionedCollection py2 w2.
Proof.
  intros Hplan. rewrite !MentionedCollection_eq, Hplan.
  destruct (PLAN_md w2) as [[t|e]|]; [|done|done].
  unfold re_findall. by rewrite findall_scan_ext.
Qed.

End Interpreters.

(** The order in which the set is iterated does not show in [sorted]. *)
Lemma sorted_set_iter py1 py2 X : sorted py1 X = sorted py2 X.
Proof.
  apply sorted_unique; [apply sorted_ascending|].
  intros id. by rewrite elem_of_sorted.
Qed.

Lemma NewFindings_ext py1 py2 w1 w2 :
  (∀ c, isdecimal py1 c = isdecimal py2 c) →
  same_entries (csmith_reports w1) (csmith_reports w2) →
  PLAN_md w1 = PLAN_md w2 →
  NewFindings py1 w1 = NewFindings py2 w2.
Proof.
  intros Hd Hdir Hplan. unfold NewFindings.
  rewrite (ReportCollection_ext py1 py2 Hd w1 w2 Hdir).
  rewrite (MentionedCollection_ext py1 py2 Hd w1 w2 Hplan).
  apply sorted_set_iter.
Qed.

(** ** Identifiers written with ASCII digits *)

Lemma is_id_ascii py (d8 d6 : list N) :
  length d8 = 8%nat → length d6 = 6%nat →
  Forall (λ c, 48 ≤ c ≤ 57) d8 → Forall (λ c, 48 ≤ c ≤ 57) d6 →
  is_id py (d8 ++ [HYPHEN] ++ d6).
Proof.
  intros H8 H6 Hd8 Hd6. exists d8, d6. split_and!; try done.
  all: eapply Forall_impl; [eassumption|]; intros c [Hlo Hhi]; simpl.
  all: rewrite isdecimal_ascii by lia.
  all: apply andb_true_iff; split; by apply N.leb_le.
Qed.

(** A name that is [report-<id>.md] as a whole carries no other identifier. *)
Lemma whole_name_suffix py (id id' : list N) :
  is_id py id → is_id py id' →
  (str_of "report-" ++ id' ++ str_of ".md") `suffix_of`
    (str_of "report-" ++ id ++ str_of ".md") →
  id' = id.
Proof.
  intros Hid Hid' [pre Hpre].
  assert (pre = []) as ->.
  { apply (f_equal length) in Hpre.
    rewrite !length_app, (is_id_length py id Hid), (is_id_length py id' Hid') in Hpre.
    apply nil_length_inv. lia. }
  rewrite app_nil_l in Hpre. apply app_inv_head in Hpre.
  by apply app_inv_tail in Hpre.
Qed.

(** When every identifier-shaped substring of the text is [id], the scan
    finds exactly [id]. *)
Lemma re_findall_only py t id :
  (∀ m, m ∈ occurrences py t ↔ m = id) →
  list_to_set (re_findall py t) =@{gset (list N)} {[id]}.
Proof.
  intros Honly. apply set_eq. intros m.
  rewrite elem_of_list_to_set, elem_of_singleton. split.
  - intros Hm%re_findall_occurrences. by apply Honly.
  - intros ->.
    assert (id ∈ occurrences py t) as (pre & post & Ht & Hid)%elem_of_occurrences
      by by apply Honly.
    pose proof (re_findall_nonempty py t pre id post Ht Hid) as Hne.
    destruct (re_findall py t) as [|m0 l] eqn:Hl; [done|].
    assert (m0 = id) as <-; [|by left].
    apply Honly, re_findall_occurrences. rewrite Hl. by left.
Qed.

(** ** The offsets of the matches returned *)
Section Starts.
Context (py : Python).

Lemma starts_scan_fuel n1 n2 pos s :
  (length s < n1)%nat → (length s < n2)%nat →
  starts_scan py n1 pos s = starts_scan py n2 pos s.
Proof.
  revert n2 pos s. induction n1 as [|n1 IH]; intros [|n2] pos s H1 H2; try lia.
  cbn [starts_scan]. destruct (match_seq py ID_RE s) as [[m rest]|] eqn:Hm.
  - apply match_seq_ID_RE_shorter in Hm. f_equal. apply IH; lia.
  - destruct s as [|c s]; [done|]. cbn [length] in *. apply IH; lia.
Qed.

Lemma starts_scan_shift n pos s :
  starts_scan py n pos s = (λ k, pos + k)%nat <$> starts_scan py n 0%nat s.
Proof.
  revert pos s. induction n as [|n IH]; intros pos s; cbn [starts_scan]; [done|].
  destruct (match_seq py ID_RE s) as [[m rest]|].
  - rewrite (IH (pos + length m)%nat), (IH (0 + length m)%nat).
    cbn [fmap list_fmap]. f_equal; [lia|].
    rewrite <-list_fmap_compose. apply list_fmap_ext. intros _ k _. simpl. lia.
  - destruct s as [|c s]; [done|].
    rewrite (IH (S pos)), (IH 1%nat), <-list_fmap_compose.
    apply list_fmap_ext. intros _ k _. simpl. lia.
Qed.

(** The fuel [match_starts] starts with is enough. *)
Lemma match_starts_unfold s :
  match_starts py s =
  match match_seq py ID_RE s with
  | Some (m, rest) => 0%nat :: ((λ k, 15 + k)%nat <$> match_starts py rest)
  | None => match s with [] => [] | _ :: s' => S <$> match_starts py s' end
  end.
Proof.
  unfold match_starts at 1. cbn [starts_scan].
  destruct (match_seq py ID_RE s) as [[m rest]|] eqn:Hm.
  - pose proof (match_seq_ID_RE_shorter py _ _ _ Hm) as Hlt.
    apply match_seq_ID_RE in Hm as [_ Hm%is_id_length].
    rewrite Hm, starts_scan_shift. f_equal. f_equal.
    apply starts_scan_fuel; lia.
  - destruct s as [|c s]; [done|]. by rewrite starts_scan_shift.
Qed.

(** The matches returned are the pieces of the text at these offsets. *)
Lemma re_findall_match_starts t :
  re_findall py t = (λ k, take 15 (drop k t)) <$> match_starts py t.
Proof.
  remember (length t) as n eqn:Hn. revert t Hn.
  induction n as [n IH] using lt_wf_ind. intros t Hn.
  rewrite re_findall_unfold, match_starts_unfold.
  destruct (match_seq py ID_RE t) as [[m rest]|] eqn:Hm.
  - pose proof (match_seq_ID_RE_shorter py _ _ _ Hm) as Hlt.
    apply match_seq_ID_RE in Hm as [-> Hm%is_id_length].
    cbn [fmap list_fmap]. f_equal.
    + by rewrite drop_0, <-Hm, take_app_length.
    + rewrite (IH (length rest)) by (done || lia).
      rewrite <-list_fmap_compose. apply list_fmap_ext. intros _ k _.
      unfold compose. cbv beta.
      by rewrite <-Hm, <-drop_drop, drop_app_length.
  - destruct t as [|c t]; [done|].
    rewrite (IH (length t)) by (done || (subst n; cbn [length]; lia)).
    rewrite <-list_fmap_compose. by apply list_fmap_ext.
Qed.

(** Returned matches do not overlap: their starts are at least fifteen
    apart, in ascending order. *)
Lemma match_starts_spaced t :
  StronglySorted (λ a b, a + 15 ≤ b)%nat (match_starts py t).
Proof.
  remember (length t) as n eqn:Hn. revert t Hn.
  induction n as [n IH] using lt_wf_ind. intros t Hn.
  rewrite match_starts_unfold.
  destruct (match_seq py ID_RE t) as [[m rest]|] eqn:Hm.
  - pose proof (match_seq_ID_RE_shorter py _ _ _ Hm) as Hlt.
    constructor.
    + apply (StronglySorted_fmap _ (λ a b, (a + 15 ≤ b)%nat)); [|by apply (IH (length rest)); lia].
      intros a b. cbv beta. lia.
    + apply Forall_fmap, Forall_true. intros k. simpl. lia.
  - destruct t as [|c t]; [constructor|].
    apply (StronglySorted_fmap _ (λ a b, (a + 15 ≤ b)%nat));
      [|by apply (IH (length t)); subst n; cbn [length]; lia].
    intros a b. lia.
Qed.

Lemma match_starts_apart t k1 k2 :
  k1 ∈ match_starts py t → k2 ∈ match_starts py t →
  (k1 < k2)%nat → (k1 + 15 ≤ k2)%nat.
Proof.
  pose proof (match_starts_spaced t) as Hs.
  induction Hs as [|a l Hl IH Ha]; [by inversion 1|].
  rewrite Forall_forall in Ha.
  intros [->|H1]%elem_of_cons [->|H2]%elem_of_cons Hlt.
  - lia.
  - by apply Ha.
  - specialize (Ha _ H1). lia.
  - by apply IH.
Qed.

(** An occurrence is returned when every returned match that starts before
    it also ends before it. *)
Lemma match_starts_complete t pre m post :
  t = pre ++ m ++ post → is_id py m →
  (∀ k, k ∈ match_starts py t →
     (k < length pre)%nat → (k + 15 ≤ length pre)%nat) →
  length pre ∈ match_starts py t.
Proof.
  remember (length t) as n eqn:Hn. revert t pre Hn.
  induction n as [n IH] using lt_wf_ind. intros t pre Hn Ht Hid Hfree.
  rewrite match_starts_unfold in Hfree |- *.
  destruct (match_seq py ID_RE t) as [[m0 rest]|] eqn:Hm0.
  - apply match_seq_ID_RE in Hm0 as [Ht0 Hid0].
    pose proof (is_id_length py m0 Hid0) as Hl0.
    destruct pre as [|c pre]; [by left|]. right.
    pose proof (Hfree 0%nat ltac:(by left) ltac:(cbn [length]; lia)) as Hlen.
    simpl in Hlen.
    assert (∃ pre2, c :: pre = m0 ++ pre2) as [pre2 Hpre2].
    { exists (drop 15 (c :: pre)).
      rewrite <-(take_drop 15 (c :: pre)) at 1. f_equal.
      assert (take 15 t = m0) as <-.
      { rewrite Ht0, <-Hl0. apply take_app_length. }
      rewrite Ht, take_app_le; [done|]. simpl. lia. }
    assert (length (c :: pre) = 15 + length pre2)%nat as Hlp
      by (rewrite Hpre2, length_app; lia).
    assert (rest = pre2 ++ m ++ post) as Hrest.
    { rewrite Hpre2, Ht0, <-(assoc_L (++)) in Ht. by apply app_inv_head in Ht. }
    rewrite Hlp. apply list_elem_of_fmap. exists (length pre2). split; [done|].
    eapply (IH (length rest)); [|done|done|done|].
    + subst n. rewrite Ht0, length_app. lia.
    + intros k Hk Hlt.
      assert ((15 + k)%nat ∈ 0%nat :: ((λ k, 15 + k)%nat <$> match_starts py rest))
        as Hin by (right; apply list_elem_of_fmap; by exists k).
      specialize (Hfree _ Hin). lia.
  - destruct pre as [|c pre].
    { assert (match_seq py ID_RE t = Some (m, post)) by by apply match_seq_ID_RE.
      congruence. }
    destruct t as [|c' t]; [done|]. injection Ht as -> Ht.
    cbn [length]. apply list_elem_of_fmap. exists (length pre). split; [done|].
    eapply (IH (length t)); [|done|done|done|].
    + subst n. simpl. lia.
    + intros k Hk Hlt.
      assert (S k ∈ S <$> match_starts py t) as Hin
        by (apply list_elem_of_fmap; by exists k).
      specialize (Hfree _ Hin). cbn [length] in Hfree. lia.
Qed.

(** The match at a returned offset is in the result of the scan. *)
Lemma match_starts_mentioned t pre m post :
  t = pre ++ m ++ post → is_id py m →
  length pre ∈ match_starts py t → m ∈ re_findall py t.
Proof.
  intros Ht Hid Hin. rewrite re_findall_match_starts.
  apply list_elem_of_fmap. exists (length pre). split; [|done].
  by rewrite Ht, drop_app_length, <-(is_id_length py m Hid), take_app_length.
Qed.

End Starts.

(** * The claims of the specification *)

(** ** Output *)

(** C1. For every reports directory and every plan text, the run prints
    exactly the header line followed by one checklist line per identifier of
    sorted(ReportCollection − MentionedCollection) when that difference is
    not empty, and the single line [No new findings.] when it is.  The
    sorted difference is given here by what it is, not by how the script
    computes it: [L] is any strictly ascending list whose members are the
    report identifiers that are not mentioned.  The plan document is any
    text, or absent: [PLAN.md] is [readable]. *)
Theorem main_prints_sorted_difference py w L :
  readable w →
  StronglySorted str_lt L →
  (∀ id, id ∈ L ↔ id ∈ ReportCollection py w ∧ id ∉ MentionedCollection py w) →
  main py w = (Returned tt, printed w (expected_output L)).
Proof.
  intros Hr Hasc Hmem. rewrite main_run by done. do 3 f_equal.
  apply sorted_unique; [done|].
  intros id. by rewrite Hmem, elem_of_difference.
Qed.

Lemma main_prints_sorted_difference_witness :
  StronglySorted str_lt [id_20260301] ∧
  (∀ id, id ∈ [id_20260301] ↔
     id ∈ ReportCollection cpython
            (world (Some two_reports) (Some (str_of "- [x] 20260205-225448 fixed"))) ∧
     id ∉ MentionedCollection cpython
            (world (Some two_reports) (Some (str_of "- [x] 20260205-225448 fixed")))) ∧
  main cpython (world (Some two_reports) (Some (str_of "- [x] 20260205-225448 fixed"))) =
    (Returned tt,
     printed (world (Some two_reports) (Some (str_of "- [x] 20260205-225448 fixed")))
       (expected_output [id_20260301])).
Proof.
  assert (StronglySorted str_lt [id_20260301]) as H1 by repeat constructor.
  assert (∀ id, id ∈ [id_20260301] ↔
     id ∈ ReportCollection cpython
            (world (Some two_reports) (Some (str_of "- [x] 20260205-225448 fixed"))) ∧
     id ∉ MentionedCollection cpython
            (world (Some two_reports) (Some (str_of "- [x] 20260205-225448 fixed")))) as H2.
  { assert (ReportCollection cpython
              (world (Some two_reports) (Some (str_of "- [x] 20260205-225448 fixed")))
            = {[id_20260205; id_20260301]}) as -> by (vm_compute; reflexivity).
    assert (MentionedCollection cpython
              (world (Some two_reports) (Some (str_of "- [x] 20260205-225448 fixed")))
            = {[id_20260205]}) as -> by (vm_compute; reflexivity).
    assert (id_20260301 ≠ id_20260205) by discriminate.
    intros id. rewrite list_elem_of_singleton. set_solver. }
  split; [exact H1|]. split; [exact H2|].
  exact (main_prints_sorted_difference cpython
           (world (Some two_reports) (Some (str_of "- [x] 20260205-225448 fixed")))
           _ I H1 H2).
Defined.

(** ** Report identifiers *)

(** C2, as the code has it.  An identifier is added to ReportCollection
    exactly when some listed name starts with [report-] and ends with
    [report-<8digits>-<6digits>.md]; the identifier is the
    [<8digits>-<6digits>] in front of that final [.md].  The pattern is
    searched for, anchored at the end of the name only. *)
Theorem report_id_added_iff py w id :
  id ∈ ReportCollection py w ↔
  ∃ name, name ∈ default [] (csmith_reports w) ∧
    str_of "report-" `prefix_of` name ∧
    (str_of "report-" ++ id ++ str_of ".md") `suffix_of` name ∧
    is_id py id.
Proof. apply elem_of_ReportCollection. Qed.

(** C2 as stated fails: the only entry is [report-x-report-20260205-225448.md],
    which is not [report-<8digits>-<6digits>.md], and [20260205-225448] is
    added all the same. *)
Lemma whole_name_claim_fails :
  ¬ whole_name_claim cpython
      (world (Some [str_of "report-x-report-20260205-225448.md"]) None).
Proof.
  intros Hclaim. destruct (Hclaim id_20260205) as [Hadded _].
  destruct Hadded as (name & Hin & Hname & _).
  - assert (ReportCollection cpython
              (world (Some [str_of "report-x-report-20260205-225448.md"]) None)
            = {[id_20260205]}) as -> by (vm_compute; reflexivity).
    by apply elem_of_singleton.
  - apply list_elem_of_singleton in Hin. rewrite Hin in Hname.
    vm_compute in Hname. discriminate Hname.
Qed.

(** ** Mentioned identifiers *)

(** C3, as the code has it.  MentionedCollection contains every substring
    of the plan text of the shape [<8digits>-<6digits>], wherever it
    occurs, unless a match that the scan returns starts at one of the
    fourteen positions before it: [re.findall] goes from left to right and
    resumes behind each match it returns, so an occurrence is returned
    exactly when no returned match overlaps it from the left.  A timestamp
    inside an unrelated sentence is mentioned. *)
Theorem mentioned_unless_overlapped py w t pre m post :
  PLAN_md w = Some (Text t) →
  t = pre ++ m ++ post →
  is_id py m →
  ((∀ k, k ∈ match_starts py t →
      (k < length pre)%nat → (k + 15 ≤ length pre)%nat) →
   m ∈ MentionedCollection py w) ∧
  ((∀ k, k ∈ match_starts py t →
      (k < length pre)%nat → (k + 15 ≤ length pre)%nat) ↔
   length pre ∈ match_starts py t).
Proof.
  intros Hplan Ht Hid. split.
  - intros Hfree.
    rewrite MentionedCollection_eq, Hplan, elem_of_list_to_set.
    apply (match_starts_mentioned py t pre m post Ht Hid).
    by apply (match_starts_complete py t pre m post).
  - split.
    + by apply (match_starts_complete py t pre m post).
    + intros Hin k Hk Hlt. by apply (match_starts_apart py t).
Qed.

(** In [00000000-11111111-22222222-333333] the scan returns the matches at
    0 and 18; the pattern also matches at 9, but that match is not
    returned and hides nothing. *)
Lemma mentioned_unless_overlapped_witness :
  str_of "22222222-333333" ∈ MentionedCollection cpython
    (world None (Some (str_of "00000000-11111111-22222222-333333"))) ∧
  id_20260205 ∈ MentionedCollection cpython
    (world None (Some (str_of "see 20260205-225448 for details"))).
Proof.
  split.
  - destruct (mentioned_unless_overlapped cpython
                (world None (Some (str_of "00000000-11111111-22222222-333333")))
                (str_of "00000000-11111111-22222222-333333")
                (str_of "00000000-11111111-") (str_of "22222222-333333") [])
      as [Hm _].
    + reflexivity.
    + reflexivity.
    + apply match_seq_ID_RE with (s := str_of "22222222-333333") (rest := []).
      vm_compute. reflexivity.
    + apply Hm. intros k Hk Hlt.
      assert (match_starts cpython (str_of "00000000-11111111-22222222-333333")
              = [0; 18]%nat) as Hs by (vm_compute; reflexivity).
      rewrite Hs in Hk.
      apply elem_of_cons in Hk as [->|Hk]; [vm_compute; lia|].
      apply list_elem_of_singleton in Hk as ->. vm_compute in Hlt. lia.
  - destruct (mentioned_unless_overlapped cpython
                (world None (Some (str_of "see 20260205-225448 for details")))
                (str_of "see 20260205-225448 for details")
                (str_of "see ") id_20260205 (str_of " for details"))
      as [Hm _].
    + reflexivity.
    + reflexivity.
    + apply match_seq_ID_RE with (s := id_20260205) (rest := []).
      vm_compute. reflexivity.
    + apply Hm. intros k Hk Hlt.
      assert (match_starts cpython (str_of "see 20260205-225448 for details")
              = [4]%nat) as Hs by (vm_compute; reflexivity).
      rewrite Hs in Hk. apply list_elem_of_singleton in Hk as ->.
      vm_compute in Hlt. lia.
Defined.

(** C3 as stated fails: [22222222-333333] is a substring of the plan text
    [11111111-22222222-333333], but the scan finds [11111111-222222] and
    resumes behind it. *)
Lemma every_occurrence_claim_fails :
  ¬ every_occurrence_claim cpython
      (world None (Some (str_of "11111111-22222222-333333"))).
Proof.
  intros Hclaim.
  specialize (Hclaim (str_of "11111111-22222222-333333")
                (str_of "22222222-333333") eq_refl).
  assert (MentionedCollection cpython
            (world None (Some (str_of "11111111-22222222-333333")))
          = {[str_of "11111111-222222"]}) as Hm by (vm_compute; reflexivity).
  rewrite Hm, elem_of_singleton in Hclaim.
  assert (str_of "22222222-333333" ∈
          occurrences cpython (str_of "11111111-22222222-333333")) as Hocc.
  { assert (occurrences cpython (str_of "11111111-22222222-333333")
            = [str_of "11111111-222222"; str_of "22222222-333333"]) as ->
      by (vm_compute; reflexivity).
    right. left. }
  specialize (Hclaim Hocc). discriminate Hclaim.
Qed.

(** C4. When the plan file does not exist, locating the mentioned
    identifiers returns the empty collection and raises nothing. *)
Theorem absent_plan_mentions_nothing py w :
  PLAN_md w = None →
  locate_mentioned_ids py w = (Returned ∅, w).
Proof.
  intros Hplan.
  rewrite locate_mentioned_ids_run by (unfold readable; by rewrite Hplan).
  by rewrite MentionedCollection_eq, Hplan.
Qed.

Lemma absent_plan_mentions_nothing_witness :
  locate_mentioned_ids cpython (world (Some two_reports) None) =
  (Returned ∅, world (Some two_reports) None).
Proof.
  apply (absent_plan_mentions_nothing cpython (world (Some two_reports) None)).
  reflexivity.
Defined.

(** ** Nothing new *)



(** C6. In every run the identifiers printed, NewFindings, are strictly
    ascending in the order of strings, hence without duplicates, and each
    one matches [^\d{8}-\d{6}$]: it is eight digits, a hyphen and six
    digits, and nothing else.  A run that cannot read [PLAN.md] raises
    before it prints anything. *)
Theorem new_findings_ascending_ids py w :
  (readable w →
   main py w = (Returned tt, printed w (expected_output (NewFindings py w)))) ∧
  (∀ e, PLAN_md w = Some (Unreadable e) → main py w = (Raised e, w)) ∧
  StronglySorted str_lt (NewFindings py w) ∧
  NoDup (NewFindings py w) ∧
  Forall (λ id, is_id py id ∧ matches_anchored_id py id = true) (NewFindings py w).
Proof.
  split_and!.
  - apply main_run.
  - apply main_raises.
  - apply sorted_ascending.
  - apply sorted_NoDup.
  - apply Forall_forall. intros id Hid.
    apply elem_of_sorted, elem_of_difference in Hid as [Hid _].
    apply elem_of_ReportCollection in Hid as (_ & _ & _ & _ & Hid).
    split; [done|by apply is_id_matches_anchored].
Qed.

(** Two new reports, listed newest first, and no plan file. *)
Lemma new_findings_ascending_ids_witness :
  main cpython (world (Some (reverse two_reports)) None) =
  (Returned tt,
   printed (world (Some (reverse two_reports)) None)
     (expected_output
        (NewFindings cpython (world (Some (reverse two_reports)) None)))) ∧
  NewFindings cpython (world (Some (reverse two_reports)) None) =
  [id_20260205; id_20260301].
Proof.
  destruct (new_findings_ascending_ids cpython
              (world (Some (reverse two_reports)) None)) as [Hrun _].
  split; [exact (Hrun I)|].
  vm_compute. reflexivity.
Defined.

(** C7. The directory holds exactly [report-20260205-225448.md] and
    [report-20260301-010101.md], in whatever order they are listed, and the
    only identifier in the plan text is [20260205-225448]: the output is
    the header followed by the single line for [20260301-010101]. *)
Theorem scenario_one_new_finding py w t :
  same_entries (csmith_reports w) (Some two_reports) →
  PLAN_md w = Some (Text t) →
  (∀ m, m ∈ occurrences py t ↔ m = id_20260205) →
  main py w =
  (Returned tt,
   printed w (str_of "New findings not in PLAN.md:" ++ [NEWLINE] ++
              str_of "  - [ ] 20260301-010101" ++ [NEWLINE])).
Proof.
  intros Hdir Hplan Honly.
  assert (is_id py id_20260205) as Hid1.
  { apply (is_id_ascii py (str_of "20260205") (str_of "225448")); try done.
    all: by repeat constructor. }
  assert (is_id py id_20260301) as Hid2.
  { apply (is_id_ascii py (str_of "20260301") (str_of "010101")); try done.
    all: by repeat constructor. }
  assert (ReportCollection py w = {[id_20260205; id_20260301]}) as HR.
  { destruct (csmith_reports w) as [names|] eqn:Hnames; [|done].
    simpl in Hdir. apply set_eq. intros id.
    rewrite elem_of_ReportCollection, Hnames. simpl. setoid_rewrite Hdir.
    rewrite elem_of_union, !elem_of_singleton. split.
    - intros (name & Hin & _ & Hsuf & Hid).
      apply elem_of_cons in Hin as [->|Hin];
        [|apply list_elem_of_singleton in Hin as ->].
      + left. by apply (whole_name_suffix py id_20260205 id).
      + right. by apply (whole_name_suffix py id_20260301 id).
    - intros [-> | ->].
      + exists (str_of "report-20260205-225448.md"). split_and!; [by left| | |done].
        * by exists (str_of "20260205-225448.md").
        * by exists [].
      + exists (str_of "report-20260301-010101.md").
        split_and!; [by right; left| | |done].
        * by exists (str_of "20260301-010101.md").
        * by exists []. }
  assert (MentionedCollection py w = {[id_20260205]}) as HM.
  { rewrite MentionedCollection_eq, Hplan. by apply re_findall_only. }
  rewrite main_run by (unfold readable; by rewrite Hplan).
  unfold NewFindings. rewrite HR, HM.
  assert (sorted py ({[id_20260205; id_20260301]} ∖ {[id_20260205]})
          = [id_20260301]) as ->; [|done].
  apply sorted_unique; [repeat constructor|].
  intros id. rewrite list_elem_of_singleton.
  assert (id_20260301 ≠ id_20260205) by discriminate. set_solver.
Qed.

(** The listing returns the two reports in the other order, and the plan
    names the first one in a checklist line. *)
Lemma scenario_one_new_finding_witness :
  main cpython
    (world (Some (reverse two_reports)) (Some (str_of "- [x] 20260205-225448 fixed"))) =
  (Returned tt,
   printed
     (world (Some (reverse two_reports)) (Some (str_of "- [x] 20260205-225448 fixed")))
     (str_of "New findings not in PLAN.md:" ++ [NEWLINE] ++
      str_of "  - [ ] 20260301-010101" ++ [NEWLINE])).
Proof.
  apply (scenario_one_new_finding cpython _ (str_of "- [x] 20260205-225448 fixed")).
  - apply reverse_Permutation.
  - reflexivity.
  - intros m.
    assert (occurrences cpython (str_of "- [x] 20260205-225448 fixed")
            = [id_20260205]) as -> by (vm_compute; reflexivity).
    apply list_elem_of_singleton.
Defined.

(** ** Errors *)

(** C8, as the code has it.  Whatever the names in the directory and
    whatever text [PLAN.md] holds, when the file is absent or [read_text]
    can read it nothing is raised: both extraction steps return, [main]
    returns, and an input in which nothing matches contributes no
    identifier.  A [PLAN.md] that exists and cannot be read (bytes that are
    not valid in the default encoding, a directory) makes the run raise the
    exception of [read_text], with nothing printed. *)
Theorem main_raises_only_unreadable py w :
  locate_report_ids py w = (Returned (ReportCollection py w), w) ∧
  (readable w →
   locate_mentioned_ids py w = (Returned (MentionedCollection py w), w) ∧
   main py w = (Returned tt, printed w (expected_output (NewFindings py w)))) ∧
  (∀ e, PLAN_md w = Some (Unreadable e) →
   locate_mentioned_ids py w = (Raised e, w) ∧ main py w = (Raised e, w)) ∧
  (Forall (λ name, re_search py name = None) (default [] (csmith_reports w)) →
   ReportCollection py w = ∅) ∧
  (∀ t, PLAN_md w = Some (Text t) → occurrences py t = [] →
   MentionedCollection py w = ∅).
Proof.
  split_and!.
  - apply locate_report_ids_run.
  - intros Hr. split; [by apply locate_mentioned_ids_run|by apply main_run].
  - intros e He. split; [by apply locate_mentioned_ids_raises|by apply main_raises].
  - intros Hnone. apply set_eq. intros id.
    rewrite ReportCollection_eq, elem_of_foldl_add_report_id.
    split; [|set_solver].
    intros [?|(name & [_ Hin]%list_elem_of_filter & Hid)]; [done|].
    rewrite Forall_forall in Hnone. by rewrite (Hnone name Hin) in Hid.
  - intros t Hplan Hnone. rewrite MentionedCollection_eq, Hplan.
    rewrite re_findall_no_match; [done|].
    intros pre m post Ht Hid.
    assert (m ∈ occurrences py t) as Hocc
      by (apply elem_of_occurrences; by exists pre, post).
    rewrite Hnone in Hocc. by inversion Hocc.
Qed.

(** Names and text in which nothing matches. *)
Lemma main_raises_only_unreadable_witness :
  main cpython
    (world (Some [str_of "report-.md"; str_of "notes.txt"; []])
           (Some (str_of "2026-02-05 22:54:48 %%%"))) =
  (Returned tt,
   printed
     (world (Some [str_of "report-.md"; str_of "notes.txt"; []])
            (Some (str_of "2026-02-05 22:54:48 %%%")))
     (str_of "No new findings." ++ [NEWLINE])) ∧
  ReportCollection cpython
    (world (Some [str_of "report-.md"; str_of "notes.txt"; []])
           (Some (str_of "2026-02-05 22:54:48 %%%"))) = ∅ ∧
  MentionedCollection cpython
    (world (Some [str_of "report-.md"; str_of "notes.txt"; []])
           (Some (str_of "2026-02-05 22:54:48 %%%"))) = ∅.
Proof.
  destruct (main_raises_only_unreadable cpython
              (world (Some [str_of "report-.md"; str_of "notes.txt"; []])
                     (Some (str_of "2026-02-05 22:54:48 %%%"))))
    as (_ & Hrun & _ & HR & HM).
  split_and!.
  - destruct (Hrun I) as [_ ->]. vm_compute. reflexivity.
  - apply HR. repeat constructor.
  - apply (HM (str_of "2026-02-05 22:54:48 %%%")); reflexivity.
Defined.

(** C8 as stated fails: [PLAN.md] exists and its bytes are not valid in the
    default encoding, so [read_text] raises [UnicodeDecodeError] and the
    run ends with it. *)
Lemma never_raises_claim_fails :
  ¬ never_raises_claim cpython
      (world_unreadable (Some two_reports) UnicodeDecodeError).
Proof.
  intros [w' Hrun].
  rewrite (main_raises cpython
             (world_unreadable (Some two_reports) UnicodeDecodeError)
             UnicodeDecodeError eq_refl) in Hrun.
  discriminate Hrun.
Qed.

(** C10, as the code has it.  When the reports directory does not exist,
    listing it raises nothing and ReportCollection is empty; then, whatever
    text [PLAN.md] holds, and also when it is absent, the output is exactly
    [No new findings.]  A [PLAN.md] that exists and cannot be read still
    makes the run raise the exception of [read_text]. *)
Theorem missing_reports_directory py w :
  csmith_reports w = None →
  locate_report_ids py w = (Returned ∅, w) ∧
  (readable w →
   main py w = (Returned tt, printed w (str_of "No new findings." ++ [NEWLINE]))) ∧
  (∀ e, PLAN_md w = Some (Unreadable e) → main py w = (Raised e, w)).
Proof.
  intros Hdir.
  assert (ReportCollection py w = ∅) as HR
    by by rewrite ReportCollection_eq, Hdir.
  split_and!; [by rewrite locate_report_ids_run, HR| |apply main_raises].
  intros Hr. rewrite main_run by done. unfold NewFindings. rewrite HR.
  assert (∅ ∖ MentionedCollection py w = (∅ : gset (list N))) as ->
    by set_solver.
  assert (sorted py ∅ = []) as -> by by apply sorted_nil.
  done.
Qed.

Lemma missing_reports_directory_witness :
  main cpython (world None (Some (str_of "- [ ] 20260205-225448"))) =
  (Returned tt,
   printed (world None (Some (str_of "- [ ] 20260205-225448")))
     (str_of "No new findings." ++ [NEWLINE])).
Proof.
  destruct (missing_reports_directory cpython
              (world None (Some (str_of "- [ ] 20260205-225448"))) eq_refl)
    as (_ & Hrun & _).
  exact (Hrun I).
Defined.

(** C10 as stated fails: the directory does not exist and [PLAN.md] cannot
    be decoded, so the run raises [UnicodeDecodeError] and prints nothing. *)
Lemma missing_directory_claim_fails :
  ¬ missing_directory_claim cpython (world_unreadable None UnicodeDecodeError).
Proof.
  intros Hclaim. specialize (Hclaim eq_refl).
  rewrite (main_raises cpython (world_unreadable None UnicodeDecodeError)
             UnicodeDecodeError eq_refl) in Hclaim.
  discriminate Hclaim.
Qed.

(** ** Two runs *)

(** C9. Two runs over the same inputs (the same directory entries, in
    whatever order they are listed, and the same plan text) under the same
    digits, whatever the order in which each run iterates its set, end the
    same way and print the same text; a run leaves the directory and the
    plan file as they were. *)
Theorem two_runs_identical py1 py2 w1 w2 :
  (∀ c, isdecimal py1 c = isdecimal py2 c) →
  same_entries (csmith_reports w1) (csmith_reports w2) →
  PLAN_md w1 = PLAN_md w2 →
  stdout w1 = stdout w2 →
  (main py1 w1).1 = (main py2 w2).1 ∧
  stdout (main py1 w1).2 = stdout (main py2 w2).2 ∧
  csmith_reports (main py1 w1).2 = csmith_reports w1 ∧
  PLAN_md (main py1 w1).2 = PLAN_md w1.
Proof.
  intros Hd Hdir Hplan Hout.
  destruct (PLAN_md w1) as [[t|e]|] eqn:Hplan1.
  - rewrite !main_run by (unfold readable; by rewrite <-?Hplan, ?Hplan1).
    rewrite (NewFindings_ext py1 py2 w1 w2 Hd Hdir (eq_trans Hplan1 Hplan)).
    unfold printed. simpl. by rewrite Hout.
  - rewrite (main_raises py1 w1 e Hplan1), (main_raises py2 w2 e (eq_sym Hplan)).
    simpl. by split_and!.
  - rewrite !main_run by (unfold readable; by rewrite <-?Hplan, ?Hplan1).
    rewrite (NewFindings_ext py1 py2 w1 w2 Hd Hdir (eq_trans Hplan1 Hplan)).
    unfold printed. simpl. by rewrite Hout.
Qed.

(** The second run lists the directory and iterates its set in the
    opposite order. *)
Lemma two_runs_identical_witness :
  stdout (main cpython (world (Some two_reports) None)).2 =
  stdout (main cpython_reversed (world (Some (reverse two_reports)) None)).2.
Proof.
  apply (two_runs_identical cpython cpython_reversed
           (world (Some two_reports) None)
           (world (Some (reverse two_reports)) None)).
  - reflexivity.
  - change (two_reports ≡ₚ reverse two_reports).
    symmetry. apply reverse_Permutation.
  - reflexivity.
  - reflexivity.
Defined.


(** * Further properties of the script *)

(** ** The scan of the plan text *)

Section Scan.
Context (py : Python).

Lemma isdecimal_ascii_false c :
  c < 128 → ¬ ascii_digit c → isdecimal py c = false.
Proof.
  intros Hc Hnd. rewrite isdecimal_ascii by done.
  apply andb_false_iff. unfold ascii_digit in Hnd.
  destruct (N.leb_spec 48 c), (N.leb_spec c 57); auto. lia.
Qed.

Lemma match_seq_ID_RE_nondigit c t :
  isdecimal py c = false → match_seq py ID_RE (c :: t) = None.
Proof.
  intros Hc. change ID_RE with (Dec :: (replicate 7 Dec ++ [Chr HYPHEN] ++ replicate 6 Dec)).
  cbn [match_seq atom_matches]. by rewrite Hc.
Qed.

Lemma re_findall_skip pre t :
  Forall (λ c, isdecimal py c = false) pre →
  re_findall py (pre ++ t) = re_findall py t.
Proof.
  induction 1 as [|c pre Hc Hpre IH]; [done|].
  rewrite <-app_comm_cons, re_findall_unfold.
  by rewrite match_seq_ID_RE_nondigit.
Qed.

Lemma re_findall_id m t :
  is_id py m → re_findall py (m ++ t) = m :: re_findall py t.
Proof.
  intros Hm. rewrite re_findall_unfold.
  assert (match_seq py ID_RE (m ++ t) = Some (m, t)) as ->
    by by apply match_seq_ID_RE.
  done.
Qed.

Lemma re_findall_short t : (length t < 15)%nat → re_findall py t = [].
Proof.
  intros Hlen. apply re_findall_no_match.
  intros pre m post -> Hm%is_id_length. rewrite !length_app in Hlen. lia.
Qed.

(** A match at the start of a text that is long enough for it does not
    depend on what follows the text. *)
Lemma match_seq_app_inv p s t' m r :
  (length p ≤ length s)%nat →
  match_seq py p (s ++ t') = Some (m, r) →
  ∃ r', match_seq py p s = Some (m, r') ∧ r = r' ++ t'.
Proof.
  intros Hlen [Hs Hm]%match_seq_spec.
  pose proof (Forall2_length _ _ _ Hm) as Hl.
  assert (m = take (length m) s) as Hmt.
  { apply (f_equal (take (length m))) in Hs.
    rewrite take_app_le in Hs by lia. by rewrite take_app_length in Hs. }
  exists (drop (length m) s). split.
  - apply match_seq_spec. split; [|done].
    rewrite Hmt at 1. by rewrite take_drop.
  - apply (f_equal (drop (length m))) in Hs.
    rewrite drop_app_le in Hs by lia. by rewrite drop_app_length in Hs.
Qed.

Lemma re_findall_app_prefix t t' :
  re_findall py t `prefix_of` re_findall py (t ++ t').
Proof.
  remember (length t) as n eqn:Hn. revert t Hn.
  induction n as [n IH] using lt_wf_ind. intros t Hn.
  rewrite (re_findall_unfold py t).
  destruct (match_seq py ID_RE t) as [[m rest]|] eqn:Hm.
  - pose proof (match_seq_ID_RE_shorter py _ _ _ Hm) as Hlt.
    apply match_seq_ID_RE in Hm as [-> Hid].
    rewrite <-(assoc_L (++)), re_findall_id by done.
    apply prefix_cons. by apply (IH (length rest)); [lia|].
  - destruct t as [|c t]; [apply prefix_nil|]. cbv iota.
    rewrite (re_findall_unfold py ((c :: t) ++ t')).
    destruct (match_seq py ID_RE ((c :: t) ++ t')) as [[m r]|] eqn:Hm'.
    + destruct (decide (length (c :: t) < 15)%nat) as [Hshort|Hlong].
      * assert (re_findall py t = []) as ->; [|apply prefix_nil].
        apply re_findall_short. cbn [length] in Hshort. lia.
      * apply match_seq_app_inv in Hm' as (r' & Hm' & _); [congruence|].
        change (length ID_RE) with 15%nat. lia.
    + apply (IH (length t)); [subst n; cbn [length]; lia|done].
Qed.

(** The first match of the scan is the leftmost identifier-shaped
    substring. *)
Lemma re_findall_head t : head (re_findall py t) = head (occurrences py t).
Proof.
  induction t as [|c t IH]; [done|].
  rewrite re_findall_unfold. cbn [occurrences].
  by destruct (match_seq py ID_RE (c :: t)) as [[m rest]|].
Qed.

Lemma is_id_chars m c :
  is_id py m → c ∈ m → isdecimal py c = true ∨ c = HYPHEN.
Proof.
  intros (d8 & d6 & -> & _ & _ & H8 & H6) Hc.
  rewrite Forall_forall in H8, H6.
  apply elem_of_app in Hc as [Hc|Hc]; [left; by apply H8|].
  apply elem_of_cons in Hc as [->|Hc]; [by right|left; by apply H6].
Qed.

(** An occurrence behind a character that is neither a decimal digit nor a
    hyphen cannot be overlapped by an earlier one, so the scan finds it. *)
Lemma re_findall_delimited t pre c m post :
  t = pre ++ [c] ++ m ++ post → is_id py m →
  isdecimal py c = false → c ≠ HYPHEN →
  m ∈ re_findall py t.
Proof.
  intros Ht Hm Hc Hh.
  apply (re_findall_complete py t (pre ++ [c]) m post);
    [by rewrite <-(assoc_L (++))|done|].
  intros pre' m' post' Ht' Hm' Hlt.
  rewrite length_app in *. simpl in *.
  destruct (decide (length pre' + 15 ≤ length pre + 1)%nat) as [|Hov]; [done|].
  exfalso.
  assert (t !! length pre = Some c) as Hl1.
  { rewrite Ht, lookup_app_r by lia. by rewrite Nat.sub_diag. }
  assert (m' !! (length pre - length pre')%nat = Some c) as Hl2.
  { rewrite <-Hl1, Ht', lookup_app_r by lia.
    rewrite lookup_app_l; [done|]. rewrite (is_id_length py m' Hm'). lia. }
  apply list_elem_of_lookup_2 in Hl2.
  destruct (is_id_chars m' c Hm' Hl2); congruence.
Qed.

End Scan.

(** ** What a run prints, scanned again *)

Section Output.
Context (py : Python).

Lemma nondigit_ascii_isdecimal s :
  forallb nondigit_ascii s = true → Forall (λ c, isdecimal py c = false) s.
Proof.
  rewrite forallb_forall. intros Hs. apply Forall_forall. intros c Hc.
  apply list_elem_of_In, Hs, andb_true_iff in Hc as [Hlt Hnd].
  apply N.ltb_lt in Hlt. rewrite isdecimal_ascii by done.
  by apply negb_true_iff.
Qed.

Lemma re_findall_checklist ids rest :
  Forall (is_id py) ids →
  re_findall py (concat (checklist_line <$> ids) ++ rest) = ids ++ re_findall py rest.
Proof.
  induction 1 as [|id ids Hid Hids IH]; [done|].
  cbn [fmap list_fmap concat]. unfold checklist_line at 1.
  rewrite <-!(assoc_L (++)).
  rewrite re_findall_skip by by apply nondigit_ascii_isdecimal.
  rewrite re_findall_id by done.
  rewrite (re_findall_skip py [NEWLINE]) by by apply nondigit_ascii_isdecimal.
  by rewrite IH.
Qed.

Lemma re_findall_expected_output ids :
  Forall (is_id py) ids → re_findall py (expected_output ids) = ids.
Proof.
  intros Hids. destruct ids as [|id ids].
  - unfold expected_output.
    rewrite <-(app_nil_r (_ ++ [NEWLINE])), re_findall_skip; [done|].
    by apply nondigit_ascii_isdecimal.
  - unfold expected_output.
    rewrite re_findall_skip by by apply nondigit_ascii_isdecimal.
    rewrite (re_findall_skip py [NEWLINE]) by by apply nondigit_ascii_isdecimal.
    rewrite <-(app_nil_r (concat _)), re_findall_checklist by done.
    by rewrite app_nil_r.
Qed.

Lemma elem_of_NewFindings w id :
  id ∈ NewFindings py w ↔
  id ∈ ReportCollection py w ∧ id ∉ MentionedCollection py w.
Proof. unfold NewFindings. by rewrite elem_of_sorted, elem_of_difference. Qed.

Lemma NewFindings_is_id w : Forall (is_id py) (NewFindings py w).
Proof.
  apply Forall_forall. intros id [Hid _]%elem_of_NewFindings.
  by apply elem_of_ReportCollection in Hid as (_ & _ & _ & _ & Hid).
Qed.

Lemma output_of_eq w :
  readable w → output_of py w = expected_output (NewFindings py w).
Proof.
  intros Hr. unfold output_of. rewrite main_run by done.
  unfold printed. cbn [snd stdout]. apply drop_app_length.
Qed.

Lemma readable_append w extra :
  readable w →
  PLAN_md (append_to_plan w extra) = Some (Text (plan_text w ++ extra)).
Proof.
  unfold readable, append_to_plan. cbn [PLAN_md].
  by destruct (PLAN_md w) as [[t|e]|].
Qed.

Lemma MentionedCollection_append w extra :
  MentionedCollection py w ⊆ MentionedCollection py (append_to_plan w extra).
Proof.
  rewrite !MentionedCollection_eq. unfold append_to_plan, plan_text.
  cbn [PLAN_md].
  destruct (PLAN_md w) as [[t|e]|]; [|set_solver|set_solver].
  intros m. rewrite !elem_of_list_to_set.
  destruct (re_findall_app_prefix py t extra) as [k ->].
  set_solver.
Qed.

Lemma ReportCollection_append w extra :
  ReportCollection py (append_to_plan w extra) = ReportCollection py w.
Proof. done. Qed.

(** Every identifier a run prints stands behind the blank of its checklist
    line, so it is found in whatever text the output is appended to. *)
Lemma NewFindings_mentioned_after w id :
  readable w →
  id ∈ NewFindings py w →
  id ∈ MentionedCollection py (append_to_plan w (output_of py w)).
Proof.
  intros Hr Hin. rewrite MentionedCollection_eq, readable_append by done.
  rewrite elem_of_list_to_set, output_of_eq by done.
  pose proof (NewFindings_is_id w) as Hids. rewrite Forall_forall in Hids.
  pose proof (Hids id Hin) as Hid.
  apply list_elem_of_split in Hin as (l1 & l2 & Hsplit).
  rewrite Hsplit. unfold expected_output.
  destruct (l1 ++ id :: l2) as [|x l] eqn:Hl; [by destruct l1|]. rewrite <-Hl.
  rewrite fmap_app, concat_app. cbn [fmap list_fmap concat].
  unfold checklist_line at 2.
  change (str_of "  - [ ] ") with (str_of "  - [ ]" ++ [32]).
  eapply (re_findall_delimited py _
            (plan_text w ++ str_of "New findings not in PLAN.md:" ++
             [NEWLINE] ++ concat (checklist_line <$> l1) ++ str_of "  - [ ]")
            32 id ([NEWLINE] ++ concat (checklist_line <$> l2))).
  - by rewrite <-!(assoc_L (++)).
  - done.
  - by apply isdecimal_ascii_false; [|unfold ascii_digit; lia].
  - done.
Qed.

End Output.

(** ** The matches as pieces of the text *)

Lemma interleave_length gaps ms :
  length gaps = length ms →
  Forall (λ m, length m = 15%nat) ms →
  (15 * length ms ≤ length (interleave gaps ms))%nat.
Proof.
  revert gaps. induction ms as [|m ms IH]; intros [|g gaps] Hlen Hms;
    cbn [length interleave] in *; try lia.
  apply Forall_cons in Hms as [Hm Hms]. injection Hlen as Hlen.
  rewrite !length_app, Hm. specialize (IH gaps Hlen Hms). lia.
Qed.

Lemma re_findall_interleave py t :
  ∃ gaps tail,
    length gaps = length (re_findall py t) ∧
    t = interleave gaps (re_findall py t) ++ tail.
Proof.
  remember (length t) as n eqn:Hn. revert t Hn.
  induction n as [n IH] using lt_wf_ind. intros t Hn.
  rewrite (re_findall_unfold py t).
  destruct (match_seq py ID_RE t) as [[m rest]|] eqn:Hm.
  - pose proof (match_seq_ID_RE_shorter py _ _ _ Hm) as Hlt.
    apply match_seq_ID_RE in Hm as [Ht Hid].
    destruct (IH (length rest) ltac:(lia) rest eq_refl)
      as (gaps & tail & Hlen & Hrest).
    exists ([] :: gaps), tail. split; [cbn [length]; by rewrite Hlen|].
    cbn [interleave]. by rewrite app_nil_l, <-(assoc_L (++)), <-Hrest.
  - destruct t as [|c t]; [by exists [], []|].
    destruct (IH (length t) ltac:(subst n; cbn [length]; lia) t eq_refl)
      as (gaps & tail & Hlen & Ht).
    destruct (re_findall py t) as [|m ms].
    + exists [], (c :: tail). split; [done|].
      destruct gaps; [|done]. by rewrite Ht at 1.
    + destruct gaps as [|g gaps]; [done|].
      exists ((c :: g) :: gaps), tail. split; [done|].
      cbn [interleave] in *. by rewrite Ht at 1.
Qed.

(** ** The order of strings and the order of time *)

Lemma str_cmp_app (x y a b : list N) :
  length x = length y →
  str_cmp (x ++ a) (y ++ b) =
  match str_cmp x y with Eq => str_cmp a b | c => c end.
Proof.
  revert y. induction x as [|c x IH]; intros [|d y] Hlen; try done.
  injection Hlen as Hlen. rewrite <-!app_comm_cons. cbn [str_cmp].
  destruct (c ?= d); [by apply IH|done|done].
Qed.

Lemma N_add_compare_l k a b : (k + a ?= k + b) = (a ?= b).
Proof.
  destruct (N.compare_spec a b) as [->|H|H].
  - apply N.compare_refl.
  - apply N.compare_lt_iff. lia.
  - apply N.compare_gt_iff. lia.
Qed.

Lemma decimal_value_acc (s : list N) acc :
  foldl (λ acc c, 10 * acc + (c - 48)) acc s =
  acc * 10 ^ N.of_nat (length s) + decimal_value s.
Proof.
  unfold decimal_value. revert acc.
  induction s as [|c s IH]; intros acc; cbn [foldl length].
  - simpl. lia.
  - rewrite IH, (IH (10 * 0 + (c - 48))).
    rewrite Nat2N.inj_succ, N.pow_succ_r'. lia.
Qed.

Lemma decimal_value_cons c (s : list N) :
  decimal_value (c :: s) = (c - 48) * 10 ^ N.of_nat (length s) + decimal_value s.
Proof.
  unfold decimal_value at 1. cbn [foldl]. rewrite decimal_value_acc. lia.
Qed.

Lemma decimal_value_bound (s : list N) :
  Forall ascii_digit s → decimal_value s < 10 ^ N.of_nat (length s).
Proof.
  induction 1 as [|c s [Hlo Hhi] Hs IH].
  - by vm_compute.
  - rewrite decimal_value_cons. cbn [length].
    rewrite Nat2N.inj_succ, N.pow_succ_r'. nia.
Qed.

(** For strings of ASCII digits of one length the order of strings is the
    order of the numbers they denote. *)
Lemma str_cmp_decimal_value (a b : list N) :
  length a = length b → Forall ascii_digit a → Forall ascii_digit b →
  str_cmp a b = (decimal_value a ?= decimal_value b).
Proof.
  revert b. induction a as [|x a IH]; intros [|y b] Hlen Ha Hb; try done.
  injection Hlen as Hlen.
  apply Forall_cons in Ha as [[Hx1 Hx2] Ha], Hb as [[Hy1 Hy2] Hb].
  rewrite !decimal_value_cons, <-Hlen. cbn [str_cmp].
  pose proof (decimal_value_bound a Ha) as Hba.
  pose proof (decimal_value_bound b Hb) as Hbb. rewrite <-Hlen in Hbb.
  destruct (N.compare_spec x y) as [->|Hlt|Hgt].
  - rewrite N_add_compare_l. by apply IH.
  - symmetry. apply N.compare_lt_iff. nia.
  - symmetry. apply N.compare_gt_iff. nia.
Qed.

Lemma timestamp_eq (d8 d6 : list N) :
  length d8 = 8%nat →
  timestamp (d8 ++ [HYPHEN] ++ d6) = decimal_value d8 * 1000000 + decimal_value d6.
Proof.
  intros H8. unfold timestamp. f_equal; [f_equal|].
  - by rewrite take_app_length'.
  - rewrite drop_app_ge by lia. by rewrite H8.
Qed.

Lemma str_cmp_timestamp a b :
  ascii_id a → ascii_id b → str_cmp a b = (timestamp a ?= timestamp b).
Proof.
  intros (d8 & d6 & -> & H8 & H6 & Hd8 & Hd6) (e8 & e6 & -> & E8 & E6 & He8 & He6).
  rewrite !timestamp_eq by done.
  rewrite str_cmp_app by congruence.
  rewrite (str_cmp_decimal_value d8 e8) by (done || congruence).
  rewrite (str_cmp_app [HYPHEN] [HYPHEN]) by done.
  change (str_cmp [HYPHEN] [HYPHEN]) with Eq. cbv iota.
  rewrite (str_cmp_decimal_value d6 e6) by (done || congruence).
  pose proof (decimal_value_bound d6 Hd6) as B1.
  pose proof (decimal_value_bound e6 He6) as B2.
  rewrite H6 in B1. rewrite E6 in B2.
  change (10 ^ N.of_nat 6) with 1000000 in *.
  destruct (N.compare_spec (decimal_value d8) (decimal_value e8)) as [->|Hlt|Hgt].
  - by rewrite N_add_compare_l.
  - symmetry. apply N.compare_lt_iff. nia.
  - symmetry. apply N.compare_gt_iff. nia.
Qed.

(** ** One entry, at most one identifier *)

Lemma size_foldl_add_report_id py X fs :
  (size (foldl (add_report_id py) X fs) ≤ size X + length fs)%nat.
Proof.
  revert X. induction fs as [|f fs IH]; intros X; cbn [foldl length]; [lia|].
  etrans; [apply IH|].
  unfold add_report_id. destruct (re_search py f) as [m|]; [|lia].
  rewrite size_union_alt, size_singleton.
  assert (size (X ∖ {[group1 m]}) ≤ size X)%nat
    by (apply subseteq_size; set_solver).
  lia.
Qed.

Lemma ascii_digit_forallb (l : list N) :
  forallb (λ c, (48 <=? c) && (c <=? 57)) l = true → Forall ascii_digit l.
Proof.
  rewrite forallb_forall. intros Hl. apply Forall_forall. intros c Hc.
  apply list_elem_of_In, Hl, andb_true_iff in Hc as [?%N.leb_le ?%N.leb_le].
  by split.
Qed.

(** ** Properties of the mentioned identifiers *)

(** X1. Nothing is mentioned that is not in the plan text: every member of
    MentionedCollection is a substring of the text of [PLAN.md] and is
    eight digits, a hyphen and six digits. *)
Theorem mentioned_is_substring py w id :
  id ∈ MentionedCollection py w →
  ∃ t pre post, PLAN_md w = Some (Text t) ∧ t = pre ++ id ++ post ∧ is_id py id.
Proof.
  rewrite MentionedCollection_eq.
  destruct (PLAN_md w) as [[t|e]|]; [|set_solver|set_solver].
  intros (pre & post & Ht & Hid)%elem_of_list_to_set%re_findall_sound.
  by exists t, pre, post.
Qed.

Lemma mentioned_is_substring_witness :
  ∃ t pre post,
    PLAN_md (world None (Some (str_of "done: 20260205-225448."))) = Some (Text t) ∧
    t = pre ++ id_20260205 ++ post ∧ is_id cpython id_20260205.
Proof.
  apply (mentioned_is_substring cpython
           (world None (Some (str_of "done: 20260205-225448."))) id_20260205).
  assert (MentionedCollection cpython
            (world None (Some (str_of "done: 20260205-225448.")))
          = {[id_20260205]}) as -> by (vm_compute; reflexivity).
  by apply elem_of_singleton.
Defined.

(** X2. The leftmost identifier-shaped substring of the plan text is always
    mentioned, so MentionedCollection is empty exactly when the text has no
    such substring at all. *)
Theorem leftmost_occurrence_mentioned py w t :
  PLAN_md w = Some (Text t) →
  (∀ m, head (occurrences py t) = Some m → m ∈ MentionedCollection py w) ∧
  (MentionedCollection py w = ∅ ↔ occurrences py t = []).
Proof.
  intros Hplan. rewrite MentionedCollection_eq, Hplan.
  pose proof (re_findall_head py t) as Hhead. split.
  - intros m Hm. rewrite <-Hhead in Hm. apply elem_of_list_to_set.
    destruct (re_findall py t) as [|x l]; simplify_eq/=. by left.
  - split.
    + intros Hempty. destruct (re_findall py t) as [|x l] eqn:Hl.
      * by destruct (occurrences py t).
      * assert (x ∈ (∅ : gset (list N))) by (rewrite <-Hempty; set_solver).
        set_solver.
    + intros Hocc. rewrite Hocc in Hhead.
      by destruct (re_findall py t).
Qed.

Lemma leftmost_occurrence_mentioned_witness :
  str_of "11111111-222222" ∈ MentionedCollection cpython
    (world None (Some (str_of "x 11111111-22222222-333333"))).
Proof.
  destruct (leftmost_occurrence_mentioned cpython
              (world None (Some (str_of "x 11111111-22222222-333333")))
              (str_of "x 11111111-22222222-333333") eq_refl) as [Hleft _].
  apply Hleft. vm_compute. reflexivity.
Defined.

(** X3. An identifier at the very start of the plan text, or right behind a
    character that is neither a decimal digit nor a hyphen, is always
    mentioned, whatever else the text holds. *)
Theorem mentioned_if_delimited py w t pre m post :
  PLAN_md w = Some (Text t) →
  t = pre ++ m ++ post →
  is_id py m →
  (∀ c, last pre = Some c → isdecimal py c = false ∧ c ≠ HYPHEN) →
  m ∈ MentionedCollection py w.
Proof.
  intros Hplan Ht Hid Hlast.
  rewrite MentionedCollection_eq, Hplan, elem_of_list_to_set.
  destruct pre as [|c pre _] using rev_ind.
  - rewrite Ht, app_nil_l, re_findall_id by done. by left.
  - destruct (Hlast c (last_snoc _ _)) as [Hc Hh].
    apply (re_findall_delimited py t pre c m post); try done.
    by rewrite Ht, <-!(assoc_L (++)).
Qed.

Lemma mentioned_if_delimited_witness :
  id_20260301 ∈ MentionedCollection cpython
    (world None (Some (str_of "1-2-3 fixed(20260301-010101)9"))).
Proof.
  apply (mentioned_if_delimited cpython _
           (str_of "1-2-3 fixed(20260301-010101)9")
           (str_of "1-2-3 fixed(") id_20260301 (str_of ")9")).
  - reflexivity.
  - reflexivity.
  - apply match_seq_ID_RE with (s := id_20260301) (rest := []).
    vm_compute. reflexivity.
  - intros c Hc. vm_compute in Hc. injection Hc as <-.
    split; [vm_compute; reflexivity|discriminate].
Defined.

(** X9. The matches the scan returns are disjoint pieces of the text in
    the order of the text: the text is a gap, the first match, a gap, the
    second match and so on, and a rest.  A text of [n] characters therefore
    yields at most [n / 15] matches. *)
Theorem matches_are_disjoint_pieces py t :
  ∃ gaps tail,
    length gaps = length (re_findall py t) ∧
    t = interleave gaps (re_findall py t) ++ tail ∧
    (15 * length (re_findall py t) ≤ length t)%nat.
Proof.
  destruct (re_findall_interleave py t) as (gaps & tail & Hlen & Ht).
  exists gaps, tail. split_and!; [done|done|].
  rewrite Ht at 2. rewrite length_app.
  assert (15 * length (re_findall py t)
          ≤ length (interleave gaps (re_findall py t)))%nat; [|lia].
  apply interleave_length; [done|].
  apply Forall_forall. intros m (? & ? & _ & Hm)%re_findall_sound.
  by apply (is_id_length py).
Qed.

(** ** Properties of a run and the next *)

(** X4. Appending text to [PLAN.md] (or creating it) keeps every identifier
    mentioned, so the next run reports no finding that this run would not
    report. *)
Theorem append_keeps_mentions py w extra :
  MentionedCollection py w ⊆ MentionedCollection py (append_to_plan w extra) ∧
  NewFindings py (append_to_plan w extra) ⊆ NewFindings py w.
Proof.
  pose proof (MentionedCollection_append py w extra) as Hsub.
  split; [done|].
  intros id. rewrite !elem_of_NewFindings, ReportCollection_append.
  set_solver.
Qed.

(** X5. The plan pattern reads back what a run prints: scanning the output
    of a run that could read its plan gives exactly the identifiers it
    reported, in the order printed, and nothing from the header or the
    [No new findings.] line. *)
Theorem output_scans_back py w :
  readable w →
  re_findall py (output_of py w) = NewFindings py w.
Proof.
  intros Hr. rewrite output_of_eq by done.
  apply re_findall_expected_output, NewFindings_is_id.
Qed.

Lemma output_scans_back_witness :
  re_findall cpython (output_of cpython (world (Some two_reports) None)) =
  NewFindings cpython (world (Some two_reports) None).
Proof.
  apply (output_scans_back cpython (world (Some two_reports) None)).
  exact I.
Defined.

(** X6. Appending the output of a run that could read its plan to
    [PLAN.md] (creating the file when it did not exist) settles every
    finding: the next run over the same directory prints exactly
    [No new findings.] *)
Theorem output_appended_settles py w :
  readable w →
  main py (append_to_plan w (output_of py w)) =
  (Returned tt,
   printed (append_to_plan w (output_of py w))
     (str_of "No new findings." ++ [NEWLINE])).
Proof.
  intros Hr.
  rewrite main_run by (unfold readable; by rewrite readable_append).
  do 2 f_equal.
  assert (NewFindings py (append_to_plan w (output_of py w)) = []) as ->; [|done].
  apply sorted_nil, set_eq. intros id.
  rewrite elem_of_difference, ReportCollection_append.
  split; [|set_solver]. intros [HR HM]. exfalso. apply HM.
  destruct (decide (id ∈ MentionedCollection py w)) as [Hin|Hnotin].
  - by apply (MentionedCollection_append py w).
  - apply NewFindings_mentioned_after; [done|]. by apply elem_of_NewFindings.
Qed.

(** Two new reports and no plan file: the output becomes the plan. *)
Lemma output_appended_settles_witness :
  main cpython
    (append_to_plan (world (Some two_reports) None)
       (output_of cpython (world (Some two_reports) None))) =
  (Returned tt,
   printed
     (append_to_plan (world (Some two_reports) None)
        (output_of cpython (world (Some two_reports) None)))
     (str_of "No new findings." ++ [NEWLINE])).
Proof.
  apply (output_appended_settles cpython (world (Some two_reports) None)).
  exact I.
Defined.

(** X7. More entries in the directory never hide a finding: when every
    entry of one listing is in the other and the plan is the same, every
    finding of the first run is a finding of the second. *)
Theorem more_reports_keep_findings py w w' :
  default [] (csmith_reports w) ⊆ default [] (csmith_reports w') →
  PLAN_md w = PLAN_md w' →
  NewFindings py w ⊆ NewFindings py w'.
Proof.
  intros Hdir Hplan id. rewrite !elem_of_NewFindings.
  rewrite (MentionedCollection_ext py py (λ _, eq_refl) w w' Hplan).
  intros [HR HM]. split; [|done].
  apply elem_of_ReportCollection in HR as (name & Hin & Hrest).
  apply elem_of_ReportCollection. exists name. split; [by apply Hdir|done].
Qed.

Lemma more_reports_keep_findings_witness :
  NewFindings cpython (world (Some [str_of "report-20260301-010101.md"]) None) ⊆
  NewFindings cpython (world (Some two_reports) None).
Proof.
  apply (more_reports_keep_findings cpython
           (world (Some [str_of "report-20260301-010101.md"]) None)
           (world (Some two_reports) None)).
  - intros name Hin%list_elem_of_singleton. subst name. right. left.
  - reflexivity.
Defined.

(** X10. There is at most one checklist line per directory entry that
    matches [report-*.md]. *)
Theorem findings_bounded_by_entries py w :
  (length (NewFindings py w) ≤
   length (filter (λ name, fnmatch REPORT_GLOB name = true)
             (default [] (csmith_reports w))))%nat.
Proof.
  unfold NewFindings. rewrite sorted_perm.
  change (length (elements ?X)) with (size X).
  etrans; [apply (subseteq_size _ (ReportCollection py w)); set_solver|].
  rewrite ReportCollection_eq.
  etrans; [apply size_foldl_add_report_id|]. by rewrite size_empty.
Qed.

(** ** The order of the findings *)

(** X8. When the identifiers reported are written with ASCII digits, they
    are printed oldest first: the order of strings is the order of the
    numbers [YYYYMMDDHHMMSS]. *)
Theorem findings_oldest_first py w :
  Forall ascii_id (NewFindings py w) →
  StronglySorted (λ a b, timestamp a < timestamp b) (NewFindings py w).
Proof.
  intros Hascii. pose proof (sorted_ascending py
    (ReportCollection py w ∖ MentionedCollection py w)) as Hsorted.
  fold (NewFindings py w) in Hsorted.
  induction Hsorted as [|a l Hl IH Ha]; [constructor|].
  apply Forall_cons in Hascii as [Haid Hlid].
  constructor; [by apply IH|].
  rewrite Forall_forall in Ha, Hlid. apply Forall_forall. intros b Hb.
  change ((timestamp a ?= timestamp b) = Lt).
  rewrite <-(str_cmp_timestamp a b) by auto. by apply Ha.
Qed.

Lemma findings_oldest_first_witness :
  StronglySorted (λ a b, timestamp a < timestamp b)
    (NewFindings cpython (world (Some (reverse two_reports)) None)).
Proof.
  apply (findings_oldest_first cpython (world (Some (reverse two_reports)) None)).
  assert (NewFindings cpython (world (Some (reverse two_reports)) None)
          = [id_20260205; id_20260301]) as -> by (vm_compute; reflexivity).
  apply Forall_cons. split; [|apply Forall_cons; split; [|by apply Forall_nil]].
  - exists (str_of "20260205"), (str_of "225448").
    split_and!; [reflexivity|reflexivity|reflexivity| |];
      by apply ascii_digit_forallb.
  - exists (str_of "20260301"), (str_of "010101").
    split_and!; [reflexivity|reflexivity|reflexivity| |];
      by apply ascii_digit_forallb.
Defined.

(** ** Which lines a run prints *)

Lemma re_findall_output_of py w :
  readable w → re_findall py (output_of py w) = NewFindings py w.
Proof.
  intros Hr. rewrite output_of_eq by done.
  apply re_findall_expected_output, NewFindings_is_id.
Qed.

(** X11. For an identifier-shaped [id], the output of a run contains the
    checklist line of [id] exactly when [id] is a report identifier that is
    not mentioned: no unmentioned report is left out and no other
    identifier gets a line.  The run is one that could read its plan. *)
Theorem line_printed_iff py w id :
  readable w →
  is_id py id →
  (∃ before after, output_of py w = before ++ checklist_line id ++ after) ↔
  id ∈ ReportCollection py w ∧ id ∉ MentionedCollection py w.
Proof.
  intros Hr Hid. rewrite <-elem_of_NewFindings. split.
  - intros (before & after & Hout).
    rewrite <-(re_findall_output_of py w Hr), Hout.
    unfold checklist_line.
    change (str_of "  - [ ] ") with (str_of "  - [ ]" ++ [32]).
    eapply (re_findall_delimited py _ (before ++ str_of "  - [ ]")
              32 id ([NEWLINE] ++ after)).
    + by rewrite <-!(assoc_L (++)).
    + done.
    + by apply isdecimal_ascii_false; [|unfold ascii_digit; lia].
    + done.
  - intros Hin. rewrite output_of_eq by done.
    apply list_elem_of_split in Hin as (l1 & l2 & Hsplit).
    rewrite Hsplit. unfold expected_output.
    destruct (l1 ++ id :: l2) as [|x l] eqn:Hl; [by destruct l1|]. rewrite <-Hl.
    rewrite fmap_app, concat_app. cbn [fmap list_fmap concat].
    exists (str_of "New findings not in PLAN.md:" ++ [NEWLINE] ++
            concat (checklist_line <$> l1)), (concat (checklist_line <$> l2)).
    by rewrite <-!(assoc_L (++)).
Qed.

Lemma line_printed_iff_witness :
  (∃ before after,
     output_of cpython
       (world (Some two_reports) (Some (str_of "- [x] 20260205-225448 fixed")))
     = before ++ checklist_line id_20260301 ++ after) ↔
  id_20260301 ∈ ReportCollection cpython
    (world (Some two_reports) (Some (str_of "- [x] 20260205-225448 fixed"))) ∧
  id_20260301 ∉ MentionedCollection cpython
    (world (Some two_reports) (Some (str_of "- [x] 20260205-225448 fixed"))).
Proof.
  apply (line_printed_iff cpython
           (world (Some two_reports) (Some (str_of "- [x] 20260205-225448 fixed")))
           id_20260301 I).
  apply match_seq_ID_RE with (s := id_20260301) (rest := []).
  vm_compute. reflexivity.
Defined.
